(** * hack/bump_up_version.py : a shallow embedding and its properties

    The script validates two version strings, renders one patch per
    repository from a template, writes the patches, and then drives git in
    every repository.  Python [str] values are modelled by [string], read as
    the UTF-8 encoding of the text: [str.replace] and concatenation on code
    points agree with the same operations on the encoding, because UTF-8 is
    self-synchronising.  Everything outside the script (the file system, the
    git binary) is an explicit [World]; effects are recorded in a trace.
    [read_current_version] is defined in the script and called nowhere; it
    is left out. *)

From Stdlib Require Import String Ascii List Bool Arith NArith ZArith Lia.
Import ListNotations.

Local Open Scope string_scope.
Local Open Scope list_scope.

(* ================================================================== *)
(** * Python string operations *)
(* ================================================================== *)

Module PyStr.

(** [s.startswith(p)]. *)
Fixpoint startswith (p s : string) : bool :=
  match p with
  | EmptyString => true
  | String a p' =>
      match s with
      | EmptyString => false
      | String b s' => Ascii.eqb a b && startswith p' s'
      end
  end.

(** [s[k:]]. *)
Fixpoint drop (k : nat) (s : string) : string :=
  match k with
  | O => s
  | S k' => match s with
            | EmptyString => EmptyString
            | String _ s' => drop k' s'
            end
  end.

(** [p in s] for strings: [p] occurs somewhere in [s]. *)
Fixpoint contains (p s : string) : bool :=
  match s with
  | EmptyString => startswith p EmptyString
  | String _ s' => startswith p s || contains p s'
  end.

(** [c in s] for a single character. *)
Fixpoint has_char (c : ascii) (s : string) : bool :=
  match s with
  | EmptyString => false
  | String a s' => Ascii.eqb c a || has_char c s'
  end.

(** [all(f(ch) for ch in s)]. *)
Fixpoint all_chars (f : ascii -> bool) (s : string) : bool :=
  match s with
  | EmptyString => true
  | String a s' => f a && all_chars f s'
  end.

(** The scan of [str.replace] for a non-empty [old]: left to right, each
    leftmost occurrence of [old] is replaced and the scan resumes behind it.
    [skip] counts the characters of a matched occurrence still to be passed
    over, which keeps the recursion structural in [s]. *)
Fixpoint replace_scan (old new : string) (skip : nat) (s : string) : string :=
  match s with
  | EmptyString => EmptyString
  | String c s' =>
      match skip with
      | S k => replace_scan old new k s'
      | O =>
          if startswith old s
          then new ++ replace_scan old new (String.length old - 1) s'
          else String c (replace_scan old new 0 s')
      end
  end.

(** [str.replace] with an empty [old] puts [new] before every character and
    at the end. *)
Fixpoint interleave (new s : string) : string :=
  match s with
  | EmptyString => new
  | String c s' => new ++ String c (interleave new s')
  end.

(** [s.replace(old, new)]. *)
Definition replace (old new s : string) : string :=
  match old with
  | EmptyString => interleave new s
  | String _ _ => replace_scan old new 0 s
  end.

(** [sep.join(parts)]. *)
Fixpoint join (sep : string) (parts : list string) : string :=
  match parts with
  | [] => EmptyString
  | [x] => x
  | x :: rest => x ++ sep ++ join sep rest
  end.

(** The pieces of an f-string: literal text and [{expr}] fields whose
    value is already a [str] (formatting a [str] with an empty format
    specification returns it unchanged). *)
Inductive fpart : Type :=
| Lit (text : string)
| Fld (value : string).

Definition fpart_text (p : fpart) : string :=
  match p with
  | Lit t => t
  | Fld v => v
  end.

Fixpoint fstring (parts : list fpart) : string :=
  match parts with
  | [] => EmptyString
  | p :: rest => fpart_text p ++ fstring rest
  end.

End PyStr.

(* ================================================================== *)
(** * The pure part of the script *)
(* ================================================================== *)

(** The two placeholder tokens of the templates (lines 81 and 82). *)
Definition current_version_token : string := "<current-version>".
Definition new_version_token : string := "<new-version>".

(** Line 70: [f"{repository}-bump-from-{current_version}-to-{new_version}.patch"]. *)
Definition patch_name (repository current_version new_version : string) : string :=
  PyStr.fstring
    [PyStr.Fld repository; PyStr.Lit "-bump-from-"; PyStr.Fld current_version;
     PyStr.Lit "-to-"; PyStr.Fld new_version; PyStr.Lit ".patch"].

(** Lines 81 to 83: the expression bound to [content] in [prepare_patches]. *)
Definition render (template current_version new_version : string) : string :=
  PyStr.replace new_version_token new_version
    (PyStr.replace current_version_token current_version template).

(** Line 167: [f"bump-from-{current_version}-to-{new_version}"]. *)
Definition branch_name_of (current_version new_version : string) : string :=
  PyStr.fstring
    [PyStr.Lit "bump-from-"; PyStr.Fld current_version;
     PyStr.Lit "-to-"; PyStr.Fld new_version].

(* ================================================================== *)
(** * The external library [semantic_version] *)
(* ================================================================== *)

Module semantic_version.

Definition is_digit (c : ascii) : bool :=
  let n := nat_of_ascii c in ((48 <=? n) && (n <=? 57))%nat.

Definition is_letter (c : ascii) : bool :=
  let n := nat_of_ascii c in
  (((65 <=? n) && (n <=? 90)) || ((97 <=? n) && (n <=? 122)))%nat.

(** Characters of an identifier: [0-9A-Za-z-]. *)
Definition is_ident_char (c : ascii) : bool :=
  is_digit c || is_letter c || Ascii.eqb c "-".

(** [s.partition(sep)] for a one-character [sep]: the text before the first
    [sep], and the text behind it when there is one. *)
Fixpoint partition (sep : ascii) (s : string) : string * option string :=
  match s with
  | EmptyString => (EmptyString, None)
  | String c s' =>
      if Ascii.eqb c sep then (EmptyString, Some s')
      else let (a, b) := partition sep s' in (String c a, b)
  end.

(** [s.split(sep)] for a one-character [sep]; never the empty list. *)
Fixpoint split (sep : ascii) (s : string) : list string :=
  match s with
  | EmptyString => [EmptyString]
  | String c s' =>
      if Ascii.eqb c sep then EmptyString :: split sep s'
      else match split sep s' with
           | [] => [String c EmptyString]
           | x :: rest => String c x :: rest
           end
  end.

Definition no_leading_zero (s : string) : bool :=
  String.eqb s "0" || negb (PyStr.startswith "0" s).

(** Modelled from the spec: the numeric identifiers MAJOR, MINOR and PATCH
    of the package [semantic_version]: decimal digits, no leading zero. *)
Definition numeric_identifier (s : string) : bool :=
  negb (String.eqb s "") && PyStr.all_chars is_digit s && no_leading_zero s.

(** Modelled from the spec: a pre-release identifier of the package
    [semantic_version]; a numeric one has no leading zero. *)
Definition prerelease_identifier (s : string) : bool :=
  negb (String.eqb s "") && PyStr.all_chars is_ident_char s
  && (negb (PyStr.all_chars is_digit s) || no_leading_zero s).

(** Modelled from the spec: a build-metadata identifier of the package
    [semantic_version]. *)
Definition build_identifier (s : string) : bool :=
  negb (String.eqb s "") && PyStr.all_chars is_ident_char s.

(** The components of a parsed version, kept as the text that was read. *)
Record version : Type := mk_version {
  major : string;
  minor : string;
  patch : string;
  prerelease : list string;
  build : list string
}.

(** Modelled from the spec: the dot-separated identifiers of an optional
    suffix, checked one by one, in the package [semantic_version]. *)
Definition identifiers (ok : string -> bool) (suffix : option string)
  : option (list string) :=
  match suffix with
  | None => Some []
  | Some t => let ids := split "." t in
              if forallb ok ids then Some ids else None
  end.

(** Modelled from the spec: the constructor [semantic_version.Version] of
    the third-party package [semantic_version], which is imported by the
    script and is not part of its sources.  The spec describes it as
    accepting exactly the strings of the form major.minor.patch with optional
    pre-release and build metadata, per the common versioning convention
    (Semantic Versioning 2.0.0), and as rejecting every other string.
    [None] stands for the [ValueError] the constructor raises. *)
Definition Version (s : string) : option version :=
  let (rest, build_part) := partition "+" s in
  let (core, pre_part) := partition "-" rest in
  match split "." core with
  | [ma; mi; pa] =>
      if numeric_identifier ma && numeric_identifier mi && numeric_identifier pa
      then match identifiers prerelease_identifier pre_part,
                 identifiers build_identifier build_part with
           | Some pre, Some bld => Some (mk_version ma mi pa pre bld)
           | _, _ => None
           end
      else None
  | _ => None
  end.

(** The grammar in the words of the spec: MAJOR.MINOR.PATCH, optionally
    followed by [-] and dot-separated pre-release identifiers, optionally
    followed by [+] and dot-separated build identifiers. *)
Definition suffix (mark : string) (ids : list string) : string :=
  match ids with
  | [] => EmptyString
  | _ :: _ => mark ++ PyStr.join "." ids
  end.

Definition format (v : version) : string :=
  major v ++ "." ++ minor v ++ "." ++ patch v
  ++ suffix "-" (prerelease v) ++ suffix "+" (build v).

Definition well_formed (v : version) : Prop :=
  numeric_identifier (major v) = true /\
  numeric_identifier (minor v) = true /\
  numeric_identifier (patch v) = true /\
  Forall (fun i => prerelease_identifier i = true) (prerelease v) /\
  Forall (fun i => build_identifier i = true) (build v).

Definition SemVer (s : string) : Prop :=
  exists v : version, well_formed v /\ s = format v.

End semantic_version.

(* ================================================================== *)
(** * Bytes and their decoding *)
(* ================================================================== *)

Module PyBytes.

(** A [bytes] object is the sequence of its bytes. *)
Definition bytes : Type := string.

Definition byte_in (lo hi : nat) (c : ascii) : bool :=
  let n := nat_of_ascii c in ((lo <=? n) && (n <=? hi))%nat.

Definition continuation : ascii -> bool := byte_in 128 191.

(** Second byte of a three-byte sequence: no overlong form, no surrogate. *)
Definition second_of_three (b0 b1 : ascii) : bool :=
  if byte_in 224 224 b0 then byte_in 160 191 b1
  else if byte_in 237 237 b0 then byte_in 128 159 b1
  else continuation b1.

(** Second byte of a four-byte sequence: no overlong form, at most U+10FFFF. *)
Definition second_of_four (b0 b1 : ascii) : bool :=
  if byte_in 240 240 b0 then byte_in 144 191 b1
  else if byte_in 244 244 b0 then byte_in 128 143 b1
  else continuation b1.

(** Well-formed UTF-8, as the strict decoder of [bytes.decode("utf-8")]
    requires it. *)
Fixpoint utf8_valid (b : bytes) : bool :=
  match b with
  | EmptyString => true
  | String b0 t0 =>
      if byte_in 0 127 b0 then utf8_valid t0
      else
        match t0 with
        | EmptyString => false
        | String b1 t1 =>
            if byte_in 194 223 b0 then continuation b1 && utf8_valid t1
            else
              match t1 with
              | EmptyString => false
              | String b2 t2 =>
                  if byte_in 224 239 b0
                  then second_of_three b0 b1 && continuation b2 && utf8_valid t2
                  else
                    match t2 with
                    | EmptyString => false
                    | String b3 t3 =>
                        byte_in 240 244 b0 && second_of_four b0 b1
                        && continuation b2 && continuation b3 && utf8_valid t3
                    end
              end
        end
  end.

(** [b.decode("utf-8")]: the text, or [None] for [UnicodeDecodeError]. *)
Definition decode (b : bytes) : option string :=
  if utf8_valid b then Some b else None.

End PyBytes.

(* ================================================================== *)
(** * Effects: results, events, the world *)
(* ================================================================== *)

(** [subprocess.CompletedProcess], with the fields the script reads. *)
Record CompletedProcess : Type := mk_completed {
  returncode : Z;
  stdout : PyBytes.bytes;
  stderr : PyBytes.bytes
}.

(** The exceptions that the script and the calls it makes can raise. *)
Inductive exn : Type :=
| ValueError (text : string)
| IndexError
| OSError (name : string)
| UnicodeDecodeError (object : PyBytes.bytes)
| Exception_ (message : string).

(** How a piece of the script ends: normally, with an exception, or with
    [sys.exit(code)]. *)
Inductive result (A : Type) : Type :=
| Ok (a : A)
| Raise (e : exn)
| SysExit (code : Z).

Arguments Ok {A} a.
Arguments Raise {A} e.
Arguments SysExit {A} code.

Inductive level : Type := INFO | ERROR.

(** What the script does to the outside, in the order it does it:
    a log record, a file opened for reading, a file written, a child
    process run ([res] is [None] when the program could not be started). *)
Inductive event : Type :=
| EvLog (lvl : level) (msg : string)
| EvRead (path : string)
| EvWrite (path : string) (content : string)
| EvRun (argv : list string) (res : option CompletedProcess).

(** The files that matter to the script: content by absolute path. *)
Definition FS : Type := string -> option string.

Definition fs_update (fs : FS) (path content : string) : FS :=
  fun p => if String.eqb p path then Some content else fs p.

(** Everything the script finds around it.
    - [script_dir] is [Path(__file__).parent], an absolute directory;
    - [cwd] is the working directory of the process;
    - [can_write] tells whether [open(path, "w")] succeeds;
    - [run_process] is [subprocess.run] for a given argument vector after a
      given history; it answers for git and may depend on all that happened
      before. *)
Record World : Type := mk_world {
  script_dir : string;
  cwd : string;
  can_write : string -> bool;
  run_process : list event -> list string -> option CompletedProcess
}.

(** What a piece of the script leaves behind: the events it emitted, the
    files, its result. *)
Record Out (A : Type) : Type := mk_out {
  events : list event;
  files : FS;
  res : result A
}.

Arguments mk_out {A} events files res.
Arguments events {A} o.
Arguments files {A} o.
Arguments res {A} o.

(** A computation reads the history so far and the files. *)
Definition M (A : Type) : Type := list event -> FS -> Out A.

Definition ret {A : Type} (a : A) : M A :=
  fun _ fs => mk_out [] fs (Ok a).

Definition raise {A : Type} (e : exn) : M A :=
  fun _ fs => mk_out [] fs (Raise e).

Definition sys_exit {A : Type} (code : Z) : M A :=
  fun _ fs => mk_out [] fs (SysExit code).

Definition emit (e : event) : M unit :=
  fun _ fs => mk_out [e] fs (Ok tt).

Definition bind {A B : Type} (m : M A) (f : A -> M B) : M B :=
  fun h fs =>
    let o := m h fs in
    match res o with
    | Ok a =>
        let o' := f a (h ++ events o) (files o) in
        mk_out (events o ++ events o') (files o') (res o')
    | Raise e => mk_out (events o) (files o) (Raise e)
    | SysExit c => mk_out (events o) (files o) (SysExit c)
    end.

Declare Scope py_scope.
Delimit Scope py_scope with py.
Notation "x <- m ;; k" := (bind m (fun x => k))
  (at level 61, m at next level, right associativity) : py_scope.
Notation "m ;; k" := (bind m (fun _ => k))
  (at level 61, right associativity) : py_scope.
Local Open Scope py_scope.

(** [for x in xs: body(x)]. *)
Fixpoint for_each {A : Type} (xs : list A) (body : A -> M unit) : M unit :=
  match xs with
  | [] => ret tt
  | x :: rest => body x ;; for_each rest body
  end.

(** The exit status of the interpreter: 0 after a normal end, 1 after an
    uncaught exception, the argument of [sys.exit] otherwise. *)
Definition exit_status {A : Type} (r : result A) : Z :=
  match r with
  | Ok _ => 0
  | Raise _ => 1
  | SysExit c => c
  end.

(** ** Paths *)

Definition is_absolute (p : string) : bool := PyStr.startswith "/" p.

(** [Path(dir) / p] for a normalised directory [dir]. *)
Definition path_join (dir p : string) : string :=
  if is_absolute p then p else dir ++ "/" ++ p.

(** The file that [open(name)] designates: a relative name is resolved
    against the working directory. *)
Definition resolve (working_dir name : string) : string :=
  if is_absolute name then name else working_dir ++ "/" ++ name.

(* ================================================================== *)
(** * The script *)
(* ================================================================== *)

(** Lines 25 to 30.  A [dict] is iterated in insertion order, so the
    registry is the list of its items in that order. *)
Definition repositories : list (string * string) :=
  [ ("lightspeed-console", "version_patches/console.patch");
    ("lightspeed-service", "version_patches/service.patch");
    ("lightspeed-operator", "version_patches/operator.patch");
    ("konflux-release-data", "version_patches/konflux-release-data.patch") ].

Section Script.

Variable w : World.

Definition logger_info (msg : string) : M unit := emit (EvLog INFO msg).
Definition logger_error (msg : string) : M unit := emit (EvLog ERROR msg).

(** [xs[i]]. *)
Definition index (xs : list string) (i : nat) : M string :=
  match nth_error xs i with
  | Some x => ret x
  | None => raise IndexError
  end.

(** [open(name, "r")] followed by [read()]; the content of a file is kept
    as text. *)
Definition open_read (name : string) : M string :=
  fun _ fs =>
    let p := resolve (cwd w) name in
    match fs p with
    | Some text => mk_out [EvRead p] fs (Ok text)
    | None => mk_out [EvRead p] fs (Raise (OSError name))
    end.

(** [open(name, "w")] followed by [write(content)]. *)
Definition open_write (name content : string) : M unit :=
  fun _ fs =>
    let p := resolve (cwd w) name in
    if can_write w p
    then mk_out [EvWrite p content] (fs_update fs p content) (Ok tt)
    else mk_out [] fs (Raise (OSError name)).

(** [subprocess.run(argv, capture_output=True, check=False)].  The files
    of the model are those that the script itself opens; what the child
    process does to the files of a repository is not part of it. *)
Definition subprocess_run (argv : list string) : M CompletedProcess :=
  fun h fs =>
    match run_process w h argv with
    | Some cp => mk_out [EvRun argv (Some cp)] fs (Ok cp)
    | None => mk_out [EvRun argv None] fs (Raise (OSError (hd EmptyString argv)))
    end.

(** [b.decode("utf-8")]. *)
Definition decode_utf8 (b : PyBytes.bytes) : M string :=
  match PyBytes.decode b with
  | Some text => ret text
  | None => raise (UnicodeDecodeError b)
  end.

(** Lines 33 to 37. *)
Definition check_cli_args (args : list string) : M unit :=
  if Nat.eqb (List.length args) 3 then ret tt
  else
    logger_error "Usage: python bump_up_version.py <current-version> <new-version>" ;;
    sys_exit 1%Z.

(** Lines 40 to 43. *)
Definition check_version_format (version : string) : M unit :=
  match semantic_version.Version version with
  | Some _ => ret tt
  | None => raise (ValueError version)
  end.

(** Lines 54 to 58. *)
Definition read_template (patch : string) : M string :=
  let path := path_join (script_dir w) patch in
  open_read path.

(** Lines 61 to 65. *)
Definition write_patch (filename content : string) : M unit :=
  logger_info ("creating patch file: " ++ filename) ;;
  open_write filename content.

(** Lines 73 to 85. *)
Definition prepare_patches (repositories : list (string * string))
    (current_version new_version : string) : M unit :=
  logger_info "started patches generation" ;;
  for_each repositories (fun item =>
    let repository := fst item in
    let patch := snd item in
    logger_info ("preparing patch for repository '" ++ repository ++ "'") ;;
    template <- read_template patch ;;
    let content := render template current_version new_version in
    write_patch (patch_name repository current_version new_version) content) ;;
  logger_info "finished patches generation".

(** Lines 88 to 94. *)
Definition check_return_code (result : CompletedProcess) (error_message : string)
  : M unit :=
  if Z.eqb (returncode result) 0 then ret tt
  else
    error <- decode_utf8 (stderr result) ;;
    logger_error error_message ;;
    logger_error error ;;
    raise (Exception_ error).

(** Lines 97 to 103. *)
Definition git_command (target_repository : string) (arguments : list string)
  : M CompletedProcess :=
  subprocess_run ("git" :: "-C" :: target_repository :: arguments).

(** Lines 106 to 119. *)
Definition sync_repository (target_repository : string) : M unit :=
  result <- git_command target_repository ["checkout"; "main"] ;;
  check_return_code result "git checkout to main branch failed" ;;
  logger_info "checkout to main branch: ok" ;;
  result <- git_command target_repository ["fetch"; "origin"] ;;
  check_return_code result "git fetch failed" ;;
  logger_info "fetch from origin repository: ok" ;;
  result <- git_command target_repository ["rebase"; "origin/main"] ;;
  check_return_code result "git rebase to origin/main failed" ;;
  logger_info "rebase to origin/main: ok" ;;
  logger_info "sync local repository finished".

(** Lines 122 to 126. *)
Definition create_branch (target_repository branch_name : string) : M unit :=
  result <- git_command target_repository ["checkout"; "-b"; branch_name] ;;
  check_return_code result ("cannot create branch named " ++ branch_name) ;;
  logger_info ("branch " ++ branch_name ++ " has been created").

(** Lines 129 to 133. *)
Definition check_if_applicable (target_repository patch_file : string) : M unit :=
  result <- git_command target_repository ["apply"; "--check"; ("../" ++ patch_file)%string] ;;
  check_return_code result ("cannot apply patch " ++ patch_file ++ " (dry run)") ;;
  logger_info "check if patch is applicable: ok".

(** Lines 136 to 140. *)
Definition apply_patch (target_repository patch_file : string) : M unit :=
  result <- git_command target_repository ["apply"; ("../" ++ patch_file)%string] ;;
  check_return_code result ("cannot apply patch " ++ patch_file ++ " (real apply)") ;;
  logger_info "apply patch: ok".

(** Lines 143 to 153. *)
Definition commit_changes (target_repository new_version : string) : M unit :=
  result <- git_command target_repository ["add"; "."] ;;
  check_return_code result
    ("cannot add changes into reporitory " ++ target_repository) ;;
  result <- git_command target_repository
              ["commit"; "-m"; ("Bump to version " ++ new_version)%string] ;;
  check_return_code result
    ("cannot commit changes into reporitory " ++ target_repository) ;;
  logger_info "commit changes: ok".

(** Lines 156 to 160. *)
Definition push_pr (target_repository branch_name : string) : M unit :=
  result <- git_command target_repository ["push"; "origin"; branch_name] ;;
  check_return_code result "cannot push the pull request" ;;
  logger_info "push the pull request: ok".

(** Lines 163 to 174.  Lines 169 to 172 and 174 are comments in the source:
    of the six steps only [commit_changes] is called; [branch_name] and
    [patch] are computed and not used. *)
Definition prepare_pull_request
    (target_repository current_version new_version : string) : M unit :=
  let branch_name := branch_name_of current_version new_version in
  let patch := patch_name target_repository current_version new_version in
  commit_changes target_repository new_version.

(** Lines 177 to 182. *)
Definition prepare_pull_requests (repositories : list (string * string))
    (current_version new_version : string) : M unit :=
  for_each (map fst repositories) (fun repository =>
    prepare_pull_request repository current_version new_version).

(** Lines 185 to 198; [logging.basicConfig(level=logging.INFO)] lets every
    record through. *)
Definition main (argv : list string) : M unit :=
  check_cli_args argv ;;
  current_version <- index argv 1 ;;
  check_version_format current_version ;;
  logger_info ("current version: " ++ current_version) ;;
  new_version <- index argv 2 ;;
  check_version_format new_version ;;
  logger_info ("new version:     " ++ new_version) ;;
  prepare_patches repositories current_version new_version ;;
  prepare_pull_requests repositories current_version new_version.

(** The sequence that the spec describes, for comparison: the body of
    [prepare_pull_request] with the five commented lines taken as code. *)
Definition prepare_pull_request_as_specified
    (target_repository current_version new_version : string) : M unit :=
  let branch_name := branch_name_of current_version new_version in
  let patch := patch_name target_repository current_version new_version in
  sync_repository target_repository ;;
  create_branch target_repository branch_name ;;
  check_if_applicable target_repository patch ;;
  apply_patch target_repository patch ;;
  commit_changes target_repository new_version ;;
  push_pr target_repository branch_name.

End Script.

(* ================================================================== *)
(** * Reading traces *)
(* ================================================================== *)

(** The states of the pull-request sequence, named after the function that
    implements each: [sync_repository], [create_branch],
    [check_if_applicable], [apply_patch], [commit_changes], [push_pr]. *)
Inductive pr_state : Type :=
| SYNC | BRANCH | CHECK_APPLICABLE | APPLY | COMMIT | PUSH.

Definition pr_state_eqb (a b : pr_state) : bool :=
  match a, b with
  | SYNC, SYNC | BRANCH, BRANCH | CHECK_APPLICABLE, CHECK_APPLICABLE
  | APPLY, APPLY | COMMIT, COMMIT | PUSH, PUSH => true
  | _, _ => false
  end.

(** The state a git subcommand belongs to, by the function that issues it. *)
Definition state_of_arguments (arguments : list string) : option pr_state :=
  match arguments with
  | [] => None
  | cmd :: rest =>
      if String.eqb cmd "checkout"
      then if String.eqb (hd EmptyString rest) "-b" then Some BRANCH else Some SYNC
      else if String.eqb cmd "fetch" || String.eqb cmd "rebase" then Some SYNC
      else if String.eqb cmd "apply"
      then if String.eqb (hd EmptyString rest) "--check"
           then Some CHECK_APPLICABLE else Some APPLY
      else if String.eqb cmd "add" || String.eqb cmd "commit" then Some COMMIT
      else if String.eqb cmd "push" then Some PUSH
      else None
  end.

(** The arguments of a git invocation [git -C target ...]. *)
Definition git_arguments (argv : list string) : option (string * list string) :=
  match argv with
  | prog :: flag :: target :: arguments =>
      if String.eqb prog "git" && String.eqb flag "-C"
      then Some (target, arguments) else None
  | _ => None
  end.

Definition state_of_event (e : event) : option pr_state :=
  match e with
  | EvRun argv _ =>
      match git_arguments argv with
      | Some (_, arguments) => state_of_arguments arguments
      | None => None
      end
  | _ => None
  end.

(** The states a trace goes through: the state of every git invocation,
    consecutive invocations of one state counted once. *)
Fixpoint states_of (evs : list event) : list pr_state :=
  match evs with
  | [] => []
  | e :: rest =>
      match state_of_event e with
      | None => states_of rest
      | Some s =>
          match states_of rest with
          | [] => [s]
          | s' :: l => if pr_state_eqb s s' then s' :: l else s :: s' :: l
          end
      end
  end.

(** The argument vectors of the processes run, in order. *)
Fixpoint runs_of (evs : list event) : list (list string) :=
  match evs with
  | [] => []
  | EvRun argv _ :: rest => argv :: runs_of rest
  | _ :: rest => runs_of rest
  end.

(** The files written, in order. *)
Fixpoint writes_of (evs : list event) : list (string * string) :=
  match evs with
  | [] => []
  | EvWrite p c :: rest => (p, c) :: writes_of rest
  | _ :: rest => writes_of rest
  end.

(** The files opened for reading, in order. *)
Fixpoint reads_of (evs : list event) : list string :=
  match evs with
  | [] => []
  | EvRead p :: rest => p :: reads_of rest
  | _ :: rest => reads_of rest
  end.

(** A process that ran and returned zero. *)
Definition succeeded (r : option CompletedProcess) : bool :=
  match r with
  | Some cp => Z.eqb (returncode cp) 0
  | None => false
  end.

(** An event that is not a failed process. *)
Definition quiet (e : event) : bool :=
  match e with
  | EvRun _ r => succeeded r
  | _ => true
  end.

(** The error that [check_return_code] raises for a failed result. *)
Definition error_of (cp : CompletedProcess) : exn :=
  match PyBytes.decode (stderr cp) with
  | Some text => Exception_ text
  | None => UnicodeDecodeError (stderr cp)
  end.

(** The two records that [check_return_code] logs before it raises; none
    when the error stream is not text. *)
Definition error_log (cp : CompletedProcess) (error_message : string) : list event :=
  match PyBytes.decode (stderr cp) with
  | Some text => [EvLog ERROR error_message; EvLog ERROR text]
  | None => []
  end.

(* ================================================================== *)
(** * Sample worlds *)
(* ================================================================== *)

Module Sample.

Definition completed_ok : CompletedProcess := mk_completed 0 "" "".

Definition completed_failed : CompletedProcess :=
  mk_completed 128 "" "fatal: a branch named 'bump-from-0.2.1-to-0.2.2' already exists".

(** Every template of the registry is present next to the script. *)
Definition templates : FS :=
  fun p =>
    if String.eqb p "/src/hack/version_patches/console.patch"
    then Some "-version <current-version>
+version <new-version>
"
    else if String.eqb p "/src/hack/version_patches/service.patch"
    then Some "v<current-version>-><new-version>"
    else if String.eqb p "/src/hack/version_patches/operator.patch"
    then Some "VERSION ?= <new-version>"
    else if String.eqb p "/src/hack/version_patches/konflux-release-data.patch"
    then Some "tag: <current-version>"
    else None.

(** The script lives in [/src/hack], runs from [/work]; git always works. *)
Definition happy : World :=
  mk_world "/src/hack" "/work" (fun _ => true) (fun _ _ => Some completed_ok).

(** As [happy], except that [git checkout -b] fails. *)
Definition branch_exists : World :=
  mk_world "/src/hack" "/work" (fun _ => true)
    (fun _ argv =>
       if String.eqb (nth 3 argv EmptyString) "checkout"
          && String.eqb (nth 4 argv EmptyString) "-b"
       then Some completed_failed else Some completed_ok).

(** As [happy], except that [git commit] fails in [lightspeed-service]. *)
Definition commit_fails : World :=
  mk_world "/src/hack" "/work" (fun _ => true)
    (fun _ argv =>
       if String.eqb (nth 2 argv EmptyString) "lightspeed-service"
          && String.eqb (nth 3 argv EmptyString) "commit"
       then Some (mk_completed 1 "" "nothing to commit, working tree clean")
       else Some completed_ok).

(** The scenario of the spec: one repository, one template. *)
Definition scenario_registry : list (string * string) := [("repoA", "tmpl_a.patch")].

Definition scenario_files : FS :=
  fun p =>
    if String.eqb p "/src/hack/tmpl_a.patch"
    then Some "v<current-version>-><new-version>" else None.

Definition argv_example : list string := ["./bump_up_version.py"; "0.2.1"; "0.2.2"].

End Sample.

(* ================================================================== *)
(** * Vocabulary of the properties *)
(* ================================================================== *)

(** A literal find/replace, as a relation between a text and its image:
    the text is read from the left; where [old] starts, it is replaced by
    [new] and reading resumes behind it; elsewhere one character is copied. *)
Inductive Replaced (old new : string) : string -> string -> Prop :=
| Replaced_end : Replaced old new EmptyString EmptyString
| Replaced_here : forall rest image,
    Replaced old new rest image ->
    Replaced old new (old ++ rest) (new ++ image)
| Replaced_copy : forall c rest image,
    PyStr.startswith old (String c rest) = false ->
    Replaced old new rest image ->
    Replaced old new (String c rest) (String c image).

Definition not_digit (c : ascii) : bool := negb (semantic_version.is_digit c).

(** A string that begins with a decimal digit, as every version does. *)
Definition version_like (v : string) : bool :=
  match v with
  | EmptyString => false
  | String d _ => semantic_version.is_digit d
  end.

(** A version that cannot be mistaken for a piece of a placeholder: it
    begins with a digit and has no ["<"]. *)
Definition token_safe (v : string) : bool :=
  version_like v && negb (PyStr.has_char "<" v).

(** Inputs for which the two separators of a patch name can be told from
    the fields: the repository has no ["-bump-from-"] in its name, both
    versions begin with a digit, the current version has no ["-to-"]. *)
Definition realistic (repository current_version new_version : string) : bool :=
  negb (PyStr.contains "-bump-from-" repository)
  && version_like current_version
  && negb (PyStr.contains "-to-" current_version)
  && version_like new_version.

(** The sequence of states that the spec gives for one repository. *)
Definition specified_sequence : list pr_state :=
  [SYNC; BRANCH; CHECK_APPLICABLE; APPLY; COMMIT; PUSH].

(** The shape of a trace in which every process result was checked: either
    every process succeeded and the computation went on; or one process
    failed, nothing but the error records follows it, and the error of that
    process is raised; or a process could not be started. *)
Inductive checked_shape {A : Type} (evs : list event) (r : result A) : Prop :=
| shape_quiet : forall a,
    forallb quiet evs = true -> r = Ok a -> checked_shape evs r
| shape_failed : forall pre argv cp msg,
    evs = pre ++ EvRun argv (Some cp) :: error_log cp msg ->
    forallb quiet pre = true ->
    returncode cp <> 0%Z ->
    r = Raise (error_of cp) ->
    checked_shape evs r
| shape_not_started : forall pre argv,
    evs = pre ++ [EvRun argv None] ->
    forallb quiet pre = true ->
    r = Raise (OSError (hd EmptyString argv)) ->
    checked_shape evs r.

Definition disciplined {A : Type} (m : M A) : Prop :=
  forall h fs, checked_shape (events (m h fs)) (res (m h fs)).

(** A computation aborts on the first failed process: whenever its trace
    has a process with a nonzero return code, the computation ends with the
    error made from the captured error stream of that process, and after
    that process the trace has no further process, only the error records. *)
Definition aborts_on_failure {A : Type} (m : M A) : Prop :=
  forall h fs pre argv cp post,
    events (m h fs) = pre ++ EvRun argv (Some cp) :: post ->
    returncode cp <> 0%Z ->
    res (m h fs) = Raise (error_of cp)
    /\ runs_of post = []
    /\ exists msg, post = error_log cp msg.

(** The same with the error as the spec words it: the error that is raised
    carries the text of the captured error stream. *)
Definition aborts_with_stderr_text {A : Type} (m : M A) : Prop :=
  forall h fs pre argv cp post,
    events (m h fs) = pre ++ EvRun argv (Some cp) :: post ->
    returncode cp <> 0%Z ->
    (exists text, PyBytes.decode (stderr cp) = Some text
                  /\ res (m h fs) = Raise (Exception_ text))
    /\ runs_of post = [].

(** What a failed process leads to, case by case: no process runs after
    it; when its error stream is UTF-8 text, the message of the step and
    that text are logged at error level and [Exception(text)] is raised;
    when it is not, the decoding of line 91 raises [UnicodeDecodeError] and
    nothing is logged. *)
Definition stops_at_failure {A : Type} (m : M A) : Prop :=
  forall h fs pre argv cp post,
    events (m h fs) = pre ++ EvRun argv (Some cp) :: post ->
    returncode cp <> 0%Z ->
    forallb quiet pre = true
    /\ runs_of post = []
    /\ match PyBytes.decode (stderr cp) with
       | Some text =>
           res (m h fs) = Raise (Exception_ text)
           /\ exists msg, post = [EvLog ERROR msg; EvLog ERROR text]
       | None =>
           res (m h fs) = Raise (UnicodeDecodeError (stderr cp)) /\ post = []
       end.

(** One run of [prepare_pull_request] goes through the specified states. *)
Definition follows_specified_sequence (w : World)
    (repository current_version new_version : string)
    (h : list event) (fs : FS) : Prop :=
  states_of (events (prepare_pull_request w repository current_version new_version h fs))
  = specified_sequence.

(** Rendering again what was rendered changes nothing. *)
Definition render_idempotent (template current_version new_version : string) : Prop :=
  render (render template current_version new_version) current_version new_version
  = render template current_version new_version.

(** The two git invocations of [commit_changes]. *)
Definition git_add (repository : string) : list string :=
  ["git"; "-C"; repository; "add"; "."]%string.

Definition git_commit (repository new_version : string) : list string :=
  ["git"; "-C"; repository; "commit"; "-m";
   ("Bump to version " ++ new_version)]%string.

(** Every event that a computation emits satisfies [P]. *)
Definition emits {A : Type} (P : event -> bool) (m : M A) : Prop :=
  forall h fs, forallb P (events (m h fs)) = true.

Definition is_run (e : event) : bool :=
  match e with EvRun _ _ => true | _ => false end.

Definition is_write (e : event) : bool :=
  match e with EvWrite _ _ => true | _ => false end.

Definition not_run (e : event) : bool := negb (is_run e).
Definition not_write (e : event) : bool := negb (is_write e).

(** The file that [prepare_patches] writes for an item of the registry. *)
Definition patch_path (w : World) (current_version new_version : string)
    (item : string * string) : string :=
  resolve (cwd w) (patch_name (fst item) current_version new_version).

(** One turn of the loop of [prepare_patches]. *)
Definition patch_turn (w : World) (c n : string) (item : string * string) : M unit :=
  bind (logger_info ("preparing patch for repository '" ++ fst item ++ "'"))
    (fun _ => bind (read_template w (snd item))
    (fun template => write_patch w (patch_name (fst item) c n) (render template c n))).

(* ================================================================== *)
(** * The function that the script does not call *)
(* ================================================================== *)

(** [str.strip()] on the UTF-8 encoding of a text: the white space of
    Python is U+0009 to U+000D, U+001C to U+0020, U+0085, U+00A0, U+1680,
    U+2000 to U+200A, U+2028, U+2029, U+202F, U+205F and U+3000. *)
Module PyStrip.

Definition ascii_space (c : ascii) : bool :=
  PyBytes.byte_in 9 13 c || PyBytes.byte_in 28 32 c.

(** U+0085 and U+00A0 are C2 85 and C2 A0. *)
Definition space2 (b0 b1 : ascii) : bool :=
  PyBytes.byte_in 194 194 b0
  && (PyBytes.byte_in 133 133 b1 || PyBytes.byte_in 160 160 b1).

(** U+1680 is E1 9A 80; U+2000 to U+200A, U+2028, U+2029 and U+202F are
    E2 80 80 to E2 80 8A, E2 80 A8, E2 80 A9 and E2 80 AF; U+205F is
    E2 81 9F; U+3000 is E3 80 80. *)
Definition space3 (b0 b1 b2 : ascii) : bool :=
  (PyBytes.byte_in 225 225 b0 && PyBytes.byte_in 154 154 b1
   && PyBytes.byte_in 128 128 b2)
  || (PyBytes.byte_in 226 226 b0 && PyBytes.byte_in 128 128 b1
      && (PyBytes.byte_in 128 138 b2 || PyBytes.byte_in 168 169 b2
          || PyBytes.byte_in 175 175 b2))
  || (PyBytes.byte_in 226 226 b0 && PyBytes.byte_in 129 129 b1
      && PyBytes.byte_in 159 159 b2)
  || (PyBytes.byte_in 227 227 b0 && PyBytes.byte_in 128 128 b1
      && PyBytes.byte_in 128 128 b2).

(** [s.lstrip()]. *)
Fixpoint lstrip (s : string) : string :=
  match s with
  | EmptyString => EmptyString
  | String b0 t0 =>
      if ascii_space b0 then lstrip t0
      else
        match t0 with
        | EmptyString => s
        | String b1 t1 =>
            if space2 b0 b1 then lstrip t1
            else
              match t1 with
              | EmptyString => s
              | String b2 t2 => if space3 b0 b1 b2 then lstrip t2 else s
              end
        end
  end.

(** The same scan on the reversed text, where the bytes of a character come
    last byte first. *)
Fixpoint lstrip_reversed (s : string) : string :=
  match s with
  | EmptyString => EmptyString
  | String b0 t0 =>
      if ascii_space b0 then lstrip_reversed t0
      else
        match t0 with
        | EmptyString => s
        | String b1 t1 =>
            if space2 b1 b0 then lstrip_reversed t1
            else
              match t1 with
              | EmptyString => s
              | String b2 t2 =>
                  if space3 b2 b1 b0 then lstrip_reversed t2 else s
              end
        end
  end.

Fixpoint reverse_onto (s acc : string) : string :=
  match s with
  | EmptyString => acc
  | String c t => reverse_onto t (String c acc)
  end.

Definition reverse (s : string) : string := reverse_onto s EmptyString.

(** [s.rstrip()]. *)
Definition rstrip (s : string) : string := reverse (lstrip_reversed (reverse s)).

(** [s.strip()]. *)
Definition strip (s : string) : string := rstrip (lstrip s).

End PyStrip.

(** [subprocess.run(..., check=True)] raises [CalledProcessError] for a
    nonzero return code; the other exceptions are those of the script. *)
Inductive run_error : Type :=
| Plain (e : exn)
| CalledProcessError (returncode : Z) (cmd : list string)
    (output stderr : PyBytes.bytes).

Definition pdm_show_version : list string := ["pdm"; "show"; "--version"]%string.

(** Lines 46 to 51.  The function touches no file; it gives the events it
    emits and the version it returns or the error it raises. *)
Definition read_current_version (w : World) (h : list event)
  : list event * (run_error + string) :=
  match run_process w h pdm_show_version with
  | None => ([EvRun pdm_show_version None], inl (Plain (OSError "pdm")))
  | Some completed =>
      ([EvRun pdm_show_version (Some completed)],
       if Z.eqb (returncode completed) 0
       then match PyBytes.decode (stdout completed) with
            | Some text => inr (PyStrip.strip text)
            | None => inl (Plain (UnicodeDecodeError (stdout completed)))
            end
       else inl (CalledProcessError (returncode completed) pdm_show_version
                   (stdout completed) (stderr completed)))
  end.

(* ================================================================== *)
(** * Vocabulary of the further properties *)
(* ================================================================== *)

Definition is_ok {A : Type} (r : result A) : bool :=
  match r with
  | Ok _ => true
  | _ => false
  end.

(** A computation follows a plan of commands: it runs them in order; it
    ends normally exactly when it has run them all; otherwise it has run
    the plan up to a command, the last one it ran, and nothing else. *)
Definition follows_plan {A : Type} (plan : list (list string)) (m : M A) : Prop :=
  forall h fs,
    (is_ok (res (m h fs)) = true /\ runs_of (events (m h fs)) = plan)
    \/ (is_ok (res (m h fs)) = false
        /\ exists k, k < List.length plan
                     /\ runs_of (events (m h fs)) = firstn (S k) plan).

(** The processes of a trace with what became of each: [true] for a
    process that returned zero. *)
Fixpoint outcomes_of (evs : list event) : list (list string * bool) :=
  match evs with
  | [] => []
  | EvRun argv r :: rest => (argv, succeeded r) :: outcomes_of rest
  | _ :: rest => outcomes_of rest
  end.

(** Every command of a plan, each having returned zero. *)
Definition passed (plan : list (list string)) : list (list string * bool) :=
  map (fun argv => (argv, true)) plan.

(** A computation runs a plan of commands and checks each: either it ends
    normally, and then every command of the plan has run, in order, and
    returned zero; or it fails, and then the commands before some command
    of the plan have run and returned zero, that command has run and has
    not, and nothing has run after it. *)
Definition checked_plan {A : Type} (plan : list (list string)) (m : M A) : Prop :=
  forall h fs,
    (is_ok (res (m h fs)) = true
     /\ outcomes_of (events (m h fs)) = passed plan)
    \/ (is_ok (res (m h fs)) = false
        /\ exists k argv,
             nth_error plan k = Some argv
             /\ outcomes_of (events (m h fs))
                = passed (firstn k plan) ++ [(argv, false)]).

(** The commands of the pull-request phase, repository by repository. *)
Definition commit_plan (new_version : string) (regs : list (string * string))
  : list (list string) :=
  concat (map (fun item => [git_add (fst item); git_commit (fst item) new_version])
              regs).

(** The file from which [prepare_patches] reads the template of an item. *)
Definition template_path (w : World) (item : string * string) : string :=
  resolve (cwd w) (path_join (script_dir w) (snd item)).

(** The text of a file, empty when there is none. *)
Definition text_at (fs : FS) (path : string) : string :=
  match fs path with
  | Some text => text
  | None => EmptyString
  end.

(** A template cut in pieces: text without ["<"] and the two placeholders. *)
Inductive segment : Type :=
| Text (text : string)
| CurrentVersion
| NewVersion.

Definition plain_segment (s : segment) : bool :=
  match s with
  | Text text => negb (PyStr.has_char "<" text)
  | _ => true
  end.

Fixpoint template_of (segments : list segment) : string :=
  match segments with
  | [] => EmptyString
  | Text text :: rest => text ++ template_of rest
  | CurrentVersion :: rest => current_version_token ++ template_of rest
  | NewVersion :: rest => new_version_token ++ template_of rest
  end.

Fixpoint instance_of (c n : string) (segments : list segment) : string :=
  match segments with
  | [] => EmptyString
  | Text text :: rest => text ++ instance_of c n rest
  | CurrentVersion :: rest => c ++ instance_of c n rest
  | NewVersion :: rest => n ++ instance_of c n rest
  end.

(** The characters of a version: digits, letters, [-], [.] and [+]. *)
Definition version_char (c : ascii) : bool :=
  semantic_version.is_ident_char c || Ascii.eqb c "." || Ascii.eqb c "+".

(** A computation never calls [sys.exit]. *)
Definition never_exits {A : Type} (m : M A) : Prop :=
  forall h fs code, res (m h fs) <> SysExit code.

(** A computation leaves the files as they are. *)
Definition keeps_files {A : Type} (m : M A) : Prop :=
  forall h fs, files (m h fs) = fs.

Definition is_read (e : event) : bool :=
  match e with EvRead _ => true | _ => false end.

(** An event that touches no file. *)
Definition no_file (e : event) : bool := negb (is_read e) && negb (is_write e).

(** The files after the writes of a trace. *)
Fixpoint after_writes (fs : FS) (ws : list (string * string)) : FS :=
  match ws with
  | [] => fs
  | (p, c) :: rest => after_writes (fs_update fs p c) rest
  end.

(** Two more worlds. *)
Module MoreSamples.

(** What git wrote is not UTF-8. *)
Definition garbled_result : CompletedProcess :=
  mk_completed 1 "" (String (ascii_of_nat 255) "lock").

Definition garbled : World :=
  mk_world "/src/hack" "/work" (fun _ => true) (fun _ _ => Some garbled_result).

(** pdm prints the version and a line feed. *)
Definition pdm_output : string := ("0.2.1" ++ String (ascii_of_nat 10) "")%string.

Definition pdm_works : World :=
  mk_world "/src/hack" "/work" (fun _ => true)
    (fun _ _ => Some (mk_completed 0 pdm_output "")).

(** The templates of the first two repositories of the registry only. *)
Definition two_templates : FS :=
  fun p =>
    if String.eqb p "/src/hack/version_patches/console.patch"
    then Some "-version <current-version>"
    else if String.eqb p "/src/hack/version_patches/service.patch"
    then Some "v<current-version>-><new-version>"
    else None.

Definition version_0_2_1 : semantic_version.version :=
  semantic_version.mk_version "0" "2" "1" [] [].

End MoreSamples.

(* ================================================================== *)
(** * Facts about strings *)
(* ================================================================== *)

Module StrFacts.
Import PyStr.

Lemma append_nil_r (s : string) : (s ++ "")%string = s.
Proof. induction s as [|c s IH]; simpl; [reflexivity | now rewrite IH]. Qed.

Lemma append_assoc (a b c : string) :
  ((a ++ b) ++ c)%string = (a ++ (b ++ c))%string.
Proof. induction a as [|x a IH]; simpl; [reflexivity | now rewrite IH]. Qed.

Lemma length_append (a b : string) :
  String.length (a ++ b) = String.length a + String.length b.
Proof. induction a as [|x a IH]; simpl; [reflexivity | now rewrite IH]. Qed.

Lemma append_inv_head (a b c : string) :
  (a ++ b)%string = (a ++ c)%string -> b = c.
Proof.
  induction a as [|x a IH]; simpl; intros H; [exact H|].
  injection H as H. now apply IH.
Qed.

(** Two ways of cutting one string: one cut is inside the other's left part. *)
Lemma append_eq_append (a b c d : string) :
  (a ++ b)%string = (c ++ d)%string ->
  (exists z, a = (c ++ z)%string /\ d = (z ++ b)%string)
  \/ (exists z, c = (a ++ z)%string /\ b = (z ++ d)%string).
Proof.
  revert c. induction a as [|x a IH]; intros c H.
  - right. exists c. simpl in *. now split.
  - destruct c as [|y c].
    + left. exists (String x a). simpl in *. now split.
    + simpl in H. injection H as Hxy H. subst y.
      destruct (IH _ H) as [[z [E1 E2]]|[z [E1 E2]]].
      * left. exists z. simpl. now rewrite E1.
      * right. exists z. simpl. now rewrite E1.
Qed.

Lemma append_inv_tail (a b c : string) :
  (a ++ c)%string = (b ++ c)%string -> a = b.
Proof.
  intros H.
  assert (L : String.length a = String.length b).
  { apply (f_equal String.length) in H. rewrite !length_append in H. lia. }
  revert b H L. induction a as [|x a IH]; intros [|y b] H L; simpl in *;
    try discriminate; [reflexivity|].
  injection L as L.
  destruct (append_eq_append (String x a) c (String y b) c H) as [[z [E1 E2]]|[z [E1 E2]]].
  - assert (z = ""%string) as ->.
    { apply (f_equal String.length) in E1. simpl in E1.
      rewrite length_append in E1. destruct z; [reflexivity | simpl in E1; lia]. }
    now rewrite append_nil_r in E1.
  - assert (z = ""%string) as ->.
    { apply (f_equal String.length) in E1. simpl in E1.
      rewrite length_append in E1. destruct z; [reflexivity | simpl in E1; lia]. }
    now rewrite append_nil_r in E1.
Qed.

Lemma startswith_refl_append (p s : string) : startswith p (p ++ s) = true.
Proof.
  induction p as [|a p IH]; simpl; [reflexivity|].
  now rewrite Ascii.eqb_refl, IH.
Qed.

Lemma startswith_split (p s : string) :
  startswith p s = true -> s = (p ++ drop (String.length p) s)%string.
Proof.
  revert s. induction p as [|a p IH]; intros s H; simpl in *; [reflexivity|].
  destruct s as [|b s]; [discriminate|].
  apply andb_true_iff in H as [Hab H]. apply Ascii.eqb_eq in Hab. subst b.
  simpl. f_equal. now apply IH.
Qed.

Lemma drop_append (p s : string) : drop (String.length p) (p ++ s) = s.
Proof. induction p as [|a p IH]; simpl; [reflexivity | exact IH]. Qed.

Lemma length_drop_le (k : nat) (s : string) :
  String.length (drop k s) <= String.length s.
Proof.
  revert s. induction k as [|k IH]; intros s; simpl; [lia|].
  destruct s as [|c s]; simpl; [lia|]. specialize (IH s). lia.
Qed.

Lemma has_char_append (c : ascii) (a b : string) :
  has_char c (a ++ b) = has_char c a || has_char c b.
Proof.
  induction a as [|x a IH]; simpl; [reflexivity|].
  now rewrite IH, orb_assoc.
Qed.

Lemma contains_drop (p s : string) (k : nat) :
  contains p s = false -> contains p (drop k s) = false.
Proof.
  revert s. induction k as [|k IH]; intros s H; simpl; [exact H|].
  destruct s as [|c s]; [exact H|].
  simpl in H. apply orb_false_iff in H as [_ H]. now apply IH.
Qed.

Lemma contains_startswith (p s : string) :
  contains p s = false -> startswith p s = false.
Proof.
  destruct s as [|c s]; simpl; intros H; [exact H|].
  now apply orb_false_iff in H as [H _].
Qed.

(** A text before which nothing of [p] can start does not hide [p]. *)
Lemma contains_skip (a : ascii) (p x y : string) :
  has_char a x = false ->
  contains (String a p) (x ++ y) = contains (String a p) y.
Proof.
  induction x as [|e x IH]; intros H; [reflexivity|].
  simpl in H. apply orb_false_iff in H as [Hae H].
  change (contains (String a p) (String e (x ++ y))
          = contains (String a p) y).
  simpl. rewrite Hae. simpl. now apply IH.
Qed.

(** ** [str.replace] *)

Lemma replace_scan_skip (old new : string) (k : nat) (s : string) :
  replace_scan old new k s = replace_scan old new 0 (drop k s).
Proof.
  revert k. induction s as [|c s IH]; intros k.
  - destruct k; reflexivity.
  - destruct k as [|k]; [reflexivity|]. simpl. apply IH.
Qed.

(** The equation of the scan, one step at a time. *)
Lemma replace_step (a : ascii) (old' new : string) (c : ascii) (s : string) :
  let old := String a old' in
  replace old new (String c s) =
  if startswith old (String c s)
  then (new ++ replace old new (drop (String.length old) (String c s)))%string
  else String c (replace old new s).
Proof.
  cbv zeta. unfold replace.
  change (replace_scan (String a old') new 0 (String c s))
    with (if startswith (String a old') (String c s)
          then (new ++ replace_scan (String a old') new
                         (String.length (String a old') - 1) s)%string
          else String c (replace_scan (String a old') new 0 s)).
  destruct (startswith (String a old') (String c s)); [|reflexivity].
  f_equal. rewrite replace_scan_skip. simpl. now rewrite Nat.sub_0_r.
Qed.

Lemma replace_nil (a : ascii) (old' new : string) :
  replace (String a old') new "" = ""%string.
Proof. reflexivity. Qed.

(** Induction along the scan, for a non-empty [old]. *)
Lemma scan_ind (a : ascii) (old' : string) (P : string -> Prop) :
  P ""%string ->
  (forall c s, startswith (String a old') (String c s) = true ->
               P (drop (String.length (String a old')) (String c s)) ->
               P (String c s)) ->
  (forall c s, startswith (String a old') (String c s) = false ->
               P s -> P (String c s)) ->
  forall s, P s.
Proof.
  intros Hnil Hhere Hcopy s.
  assert (G : forall n t, String.length t <= n -> P t).
  { induction n as [|n IH]; intros t Ht.
    - destruct t; [exact Hnil | simpl in Ht; lia].
    - destruct t as [|c t]; [exact Hnil|].
      destruct (startswith (String a old') (String c t)) eqn:E.
      + apply Hhere; [exact E|]. apply IH.
        pose proof (length_drop_le (String.length old') t).
        simpl in Ht |- *. lia.
      + apply Hcopy; [exact E|]. apply IH. simpl in Ht. lia. }
  apply (G (String.length s)). lia.
Qed.

(** [str.replace] computes the literal find/replace. *)
Lemma replace_Replaced (a : ascii) (old' new s : string) :
  Replaced (String a old') new s (replace (String a old') new s).
Proof.
  induction s as [| c s E IH | c s E IH] using (scan_ind a old').
  - apply Replaced_end.
  - rewrite replace_step. cbv zeta. rewrite E.
    rewrite (startswith_split _ _ E) at 1.
    now apply Replaced_here.
  - rewrite replace_step. cbv zeta. rewrite E.
    now apply Replaced_copy.
Qed.

(** The literal find/replace has one image only. *)
Lemma Replaced_functional (a : ascii) (old' new s r : string) :
  Replaced (String a old') new s r -> r = replace (String a old') new s.
Proof.
  induction 1 as [| rest image _ IH | c rest image E _ IH].
  - reflexivity.
  - destruct (String a old' ++ rest)%string as [|c t] eqn:Et; [discriminate|].
    rewrite replace_step. cbv zeta. rewrite <- Et.
    rewrite startswith_refl_append, drop_append. now rewrite IH.
  - rewrite replace_step. cbv zeta. rewrite E. now rewrite IH.
Qed.

(** Where [old] does not occur, nothing is replaced. *)
Lemma replace_absent (a : ascii) (old' new s : string) :
  contains (String a old') s = false -> replace (String a old') new s = s.
Proof.
  induction s as [|c s IH]; intros H; [reflexivity|].
  rewrite replace_step. cbv zeta.
  simpl in H. apply orb_false_iff in H as [H1 H2].
  change (startswith (String a old') (String c s)) with
    (Ascii.eqb a c && startswith old' s).
  rewrite H1. now rewrite IH.
Qed.

(** A text without the first character of [new] that starts the image
    starts the source as well. *)
Lemma startswith_replace (a d : ascii) (old' new' q s : string) :
  has_char d q = false ->
  startswith q (replace (String a old') (String d new') s) = true ->
  startswith q s = true.
Proof.
  revert q. induction s as [|c s IH]; intros q Hd H.
  - exact H.
  - destruct q as [|x q]; [reflexivity|].
    simpl in Hd. apply orb_false_iff in Hd as [Hdx Hd].
    rewrite replace_step in H. cbv zeta in H.
    destruct (startswith (String a old') (String c s)) eqn:E.
    + simpl in H. rewrite Ascii.eqb_sym in Hdx. rewrite Hdx in H. discriminate.
    + simpl in H. apply andb_true_iff in H as [Hxc H].
      simpl. rewrite Hxc. simpl. now apply IH.
Qed.

(** After the replacement no placeholder is left, nor created: [p], which
    is [old] itself or was absent before, is absent from the image when
    [new] begins with a character foreign to [p] and has no character equal
    to the first one of [p]. *)
Lemma replace_clears (a b d : ascii) (old' p' new' s : string) :
  let old := String a old' in
  let p := String b p' in
  let new := String d new' in
  has_char d p = false ->
  has_char b new = false ->
  p = old \/ contains p s = false ->
  contains p (replace old new s) = false.
Proof.
  cbv zeta. intros Hd Hb.
  induction s as [| c s E IH | c s E IH] using (scan_ind a old');
    intros Hp.
  - reflexivity.
  - rewrite replace_step. cbv zeta. rewrite E.
    rewrite contains_skip by exact Hb.
    apply IH. destruct Hp as [Hp|Hp]; [now left | right].
    now apply contains_drop.
  - assert (Hs : startswith (String b p') (String c s) = false).
    { destruct Hp as [Hp|Hp]; [now rewrite Hp | now apply contains_startswith]. }
    assert (Hrest : contains (String b p')
                      (replace (String a old') (String d new') s) = false).
    { apply IH. destruct Hp as [Hp|Hp]; [now left | right].
      simpl in Hp. now apply orb_false_iff in Hp as [_ Hp]. }
    destruct (startswith (String b p')
                (replace (String a old') (String d new') (String c s))) eqn:F.
    + apply startswith_replace in F; [congruence | exact Hd].
    + rewrite replace_step in F |- *. cbv zeta in F |- *. rewrite E in F |- *.
      change (contains (String b p') (String c (replace (String a old') (String d new') s)))
        with (startswith (String b p') (String c (replace (String a old') (String d new') s))
              || contains (String b p') (replace (String a old') (String d new') s)).
      now rewrite F, Hrest.
Qed.

End StrFacts.

(* ================================================================== *)
(** * Patch names *)
(* ================================================================== *)

Module NameFacts.
Import PyStr StrFacts.

Lemma all_chars_append (f : ascii -> bool) (a b : string) :
  all_chars f (a ++ b) = all_chars f a && all_chars f b.
Proof.
  induction a as [|x a IH]; simpl; [reflexivity|].
  now rewrite IH, andb_assoc.
Qed.

Lemma startswith_contains (p s : string) :
  startswith p s = true -> contains p s = true.
Proof.
  destruct s as [|c s]; simpl; intros H; [exact H | now rewrite H].
Qed.

Lemma version_like_append (v x : string) :
  version_like v = true -> version_like (v ++ x) = true.
Proof. destruct v as [|d v]; simpl; [discriminate | trivial]. Qed.

Lemma append_self_nil (u p z : string) : p = (u ++ p ++ z)%string -> u = ""%string.
Proof.
  intros H. apply (f_equal String.length) in H.
  rewrite !length_append in H.
  destruct u; [reflexivity | simpl in H; lia].
Qed.

(** A separator without digits cannot overlap a shifted copy of itself when
    a digit follows the first copy. *)
Lemma no_overlap (p b u b' : string) :
  all_chars not_digit p = true ->
  version_like b = true ->
  contains p u = false ->
  (p ++ b)%string = (u ++ p ++ b')%string ->
  u = ""%string.
Proof.
  intros Hp Hb Hu H.
  destruct (append_eq_append _ _ _ _ H) as [[z [E1 E2]]|[z [E1 E2]]].
  - destruct (append_eq_append _ _ _ _ E2) as [[y [F1 F2]]|[y [F1 F2]]].
    + destruct y as [|e y].
      * rewrite append_nil_r in F1. subst z.
        apply (append_self_nil u p ""). now rewrite append_nil_r.
      * exfalso. subst b. simpl in Hb.
        rewrite F1, all_chars_append in Hp.
        apply andb_true_iff in Hp as [_ Hp]. simpl in Hp.
        apply andb_true_iff in Hp as [Hp _].
        unfold not_digit in Hp. rewrite Hb in Hp. discriminate.
    + subst z. now apply (append_self_nil u p y).
  - exfalso. subst u.
    pose proof (startswith_contains _ _ (startswith_refl_append p z)).
    congruence.
Qed.

(** A text cut by such a separator is cut in one way only. *)
Lemma split_unique (p a b a' b' : string) :
  all_chars not_digit p = true ->
  contains p a = false -> contains p a' = false ->
  version_like b = true -> version_like b' = true ->
  (a ++ p ++ b)%string = (a' ++ p ++ b')%string ->
  a = a' /\ b = b'.
Proof.
  intros Hp. revert a'.
  induction a as [|x a IH]; intros a' Ha Ha' Hb Hb' H.
  - simpl in H. pose proof (no_overlap _ _ _ _ Hp Hb Ha' H) as ->.
    simpl in H. split; [reflexivity | now apply append_inv_head in H].
  - destruct a' as [|y a'].
    + simpl in H. symmetry in H.
      change (String x (a ++ p ++ b)) with (String x a ++ p ++ b)%string in H.
      pose proof (no_overlap _ _ _ _ Hp Hb' Ha H). discriminate.
    + simpl in H. injection H as Hxy H. subst y.
      simpl in Ha, Ha'.
      apply orb_false_iff in Ha as [_ Ha]. apply orb_false_iff in Ha' as [_ Ha'].
      destruct (IH a' Ha Ha' Hb Hb' H) as [-> ->]. now split.
Qed.

(** The f-string of [patch_name], written with concatenations. *)
Lemma patch_name_eq (r c n : string) :
  patch_name r c n = (r ++ "-bump-from-" ++ c ++ "-to-" ++ n ++ ".patch")%string.
Proof.
  unfold patch_name. cbn [fstring fpart_text].
  now rewrite append_nil_r.
Qed.

Lemma patch_name_inj (r c n r' c' n' : string) :
  realistic r c n = true -> realistic r' c' n' = true ->
  patch_name r c n = patch_name r' c' n' ->
  r = r' /\ c = c' /\ n = n'.
Proof.
  unfold realistic. intros R R' H.
  repeat (apply andb_true_iff in R as [R ?]).
  repeat (apply andb_true_iff in R' as [R' ?]).
  apply negb_true_iff in R, R'.
  repeat match goal with
         | K : negb _ = true |- _ => apply negb_true_iff in K
         end.
  rewrite !patch_name_eq in H.
  apply (split_unique "-bump-from-") in H;
    [ | reflexivity | assumption | assumption
      | now apply version_like_append | now apply version_like_append ].
  destruct H as [-> H].
  apply (split_unique "-to-") in H;
    [ | reflexivity | assumption | assumption
      | now apply version_like_append | now apply version_like_append ].
  destruct H as [-> H].
  apply append_inv_tail in H. now subst.
Qed.

(** A digit is no character of a placeholder. *)
Lemma digit_not_in_tokens (d : ascii) :
  semantic_version.is_digit d = true ->
  has_char d current_version_token = false
  /\ has_char d new_version_token = false.
Proof.
  destruct d as [[] [] [] [] [] [] [] []]; intros H;
    try discriminate H; split; reflexivity.
Qed.

(** After rendering with safe versions no placeholder is left. *)
Lemma render_clears (t c n : string) :
  token_safe c = true -> token_safe n = true ->
  contains current_version_token (render t c n) = false
  /\ contains new_version_token (render t c n) = false.
Proof.
  unfold token_safe. intros Hc Hn.
  apply andb_true_iff in Hc as [Hc1 Hc2], Hn as [Hn1 Hn2].
  apply negb_true_iff in Hc2, Hn2.
  destruct c as [|dc c]; [discriminate|].
  destruct n as [|dn n]; [discriminate|].
  simpl in Hc1, Hn1.
  destruct (digit_not_in_tokens _ Hc1) as [Hc3 Hc4].
  destruct (digit_not_in_tokens _ Hn1) as [Hn3 Hn4].
  unfold render, current_version_token, new_version_token in *.
  split.
  - apply replace_clears; [exact Hn3 | exact Hn2 | right].
    apply replace_clears; [exact Hc3 | exact Hc2 | now left].
  - apply replace_clears; [exact Hn4 | exact Hn2 | now left].
Qed.

End NameFacts.

(* ================================================================== *)
(** * The version parser against the grammar *)
(* ================================================================== *)

Module SemVerFacts.
Import PyStr StrFacts semantic_version.

Lemma partition_found (sep : ascii) (s a b : string) :
  partition sep s = (a, Some b) ->
  s = (a ++ String sep b)%string /\ has_char sep a = false.
Proof.
  revert a. induction s as [|c s IH]; intros a H; simpl in H; [discriminate|].
  destruct (Ascii.eqb c sep) eqn:E.
  - injection H as <- <-. apply Ascii.eqb_eq in E. subst c. now split.
  - destruct (partition sep s) as [a0 b0]. injection H as <- ->.
    destruct (IH a0 eq_refl) as [-> Ha]. split; [reflexivity|].
    simpl. now rewrite Ascii.eqb_sym, E.
Qed.

Lemma partition_absent (sep : ascii) (s a : string) :
  partition sep s = (a, None) -> s = a /\ has_char sep a = false.
Proof.
  revert a. induction s as [|c s IH]; intros a H; simpl in H.
  - injection H as <-. now split.
  - destruct (Ascii.eqb c sep) eqn:E; [discriminate|].
    destruct (partition sep s) as [a0 b0]. injection H as <- ->.
    destruct (IH a0 eq_refl) as [-> Ha]. split; [reflexivity|].
    simpl. now rewrite Ascii.eqb_sym, E.
Qed.

Lemma partition_append (sep : ascii) (a b : string) :
  has_char sep a = false ->
  partition sep (a ++ String sep b) = (a, Some b).
Proof.
  induction a as [|c a IH]; simpl; intros H.
  - now rewrite Ascii.eqb_refl.
  - apply orb_false_iff in H as [E H]. rewrite Ascii.eqb_sym in E.
    now rewrite E, IH.
Qed.

Lemma partition_none (sep : ascii) (a : string) :
  has_char sep a = false -> partition sep a = (a, None).
Proof.
  induction a as [|c a IH]; simpl; intros H; [reflexivity|].
  apply orb_false_iff in H as [E H]. rewrite Ascii.eqb_sym in E.
  now rewrite E, IH.
Qed.

Lemma split_not_nil (sep : ascii) (s : string) : split sep s <> [].
Proof.
  destruct s as [|c s]; simpl; [discriminate|].
  destruct (Ascii.eqb c sep); [discriminate|].
  destruct (split sep s); discriminate.
Qed.

Lemma join_split (sep : ascii) (s : string) :
  join (String sep "") (split sep s) = s.
Proof.
  induction s as [|c s IH]; [reflexivity|]. simpl.
  destruct (Ascii.eqb c sep) eqn:E.
  - apply Ascii.eqb_eq in E. subst c.
    pose proof (split_not_nil sep s) as N.
    destruct (split sep s) as [|x rest]; [contradiction|].
    change (join (String sep "") ("" :: x :: rest))%string
      with (String sep (join (String sep "") (x :: rest))).
    now rewrite IH.
  - pose proof (split_not_nil sep s) as N.
    destruct (split sep s) as [|x rest]; [contradiction|].
    destruct rest as [|y rest].
    + simpl in *. now rewrite IH.
    + change (join (String sep "") (String c x :: y :: rest))
        with (String c (join (String sep "") (x :: y :: rest))).
      now rewrite IH.
Qed.

Lemma split_no_sep (sep : ascii) (x : string) :
  has_char sep x = false -> split sep x = [x].
Proof.
  induction x as [|c x IH]; simpl; intros H; [reflexivity|].
  apply orb_false_iff in H as [E H]. rewrite Ascii.eqb_sym in E.
  now rewrite E, IH.
Qed.

Lemma split_cons (sep : ascii) (x s : string) :
  has_char sep x = false ->
  split sep (x ++ String sep s) = x :: split sep s.
Proof.
  induction x as [|c x IH]; simpl; intros H.
  - now rewrite Ascii.eqb_refl.
  - apply orb_false_iff in H as [E H]. rewrite Ascii.eqb_sym in E.
    now rewrite E, IH.
Qed.

Lemma split_join (sep : ascii) (ids : list string) :
  ids <> [] ->
  Forall (fun i => has_char sep i = false) ids ->
  split sep (join (String sep "") ids) = ids.
Proof.
  induction ids as [|x ids IH]; intros N F; [contradiction|].
  inversion F as [|? ? Hx F']; subst.
  destruct ids as [|y ids].
  - simpl. now apply split_no_sep.
  - change (join (String sep "") (x :: y :: ids))
      with (x ++ String sep (join (String sep "") (y :: ids)))%string.
    rewrite split_cons by exact Hx.
    rewrite IH; [reflexivity | discriminate | exact F'].
Qed.

(** ** Character classes *)

Lemma all_chars_has_char (f : ascii -> bool) (c : ascii) (s : string) :
  f c = false -> all_chars f s = true -> has_char c s = false.
Proof.
  intros Hc. induction s as [|a s IH]; simpl; intros H; [reflexivity|].
  apply andb_true_iff in H as [Ha H]. rewrite (IH H), orb_false_r.
  destruct (Ascii.eqb c a) eqn:E; [|reflexivity].
  apply Ascii.eqb_eq in E. subst a. congruence.
Qed.

Lemma numeric_chars (s : string) (c : ascii) :
  numeric_identifier s = true -> is_digit c = false -> has_char c s = false.
Proof.
  unfold numeric_identifier. intros H Hc.
  apply andb_true_iff in H as [H _]. apply andb_true_iff in H as [_ H].
  now apply all_chars_has_char with (f := is_digit).
Qed.

Lemma prerelease_chars (s : string) (c : ascii) :
  prerelease_identifier s = true -> is_ident_char c = false ->
  has_char c s = false.
Proof.
  unfold prerelease_identifier. intros H Hc.
  apply andb_true_iff in H as [H _]. apply andb_true_iff in H as [_ H].
  now apply all_chars_has_char with (f := is_ident_char).
Qed.

Lemma build_chars (s : string) (c : ascii) :
  build_identifier s = true -> is_ident_char c = false ->
  has_char c s = false.
Proof.
  unfold build_identifier. intros H Hc.
  apply andb_true_iff in H as [_ H].
  now apply all_chars_has_char with (f := is_ident_char).
Qed.

Lemma has_char_join (c : ascii) (sep : string) (ids : list string) :
  has_char c sep = false ->
  Forall (fun i => has_char c i = false) ids ->
  has_char c (join sep ids) = false.
Proof.
  intros Hs. induction ids as [|x ids IH]; intros F; [reflexivity|].
  inversion F as [|? ? Hx F']; subst.
  destruct ids as [|y ids]; [exact Hx|].
  change (join sep (x :: y :: ids)) with (x ++ sep ++ join sep (y :: ids))%string.
  rewrite !has_char_append, Hx, Hs. simpl. now apply IH.
Qed.

Lemma Forall_weaken (P Q : string -> Prop) (l : list string) :
  (forall x, P x -> Q x) -> Forall P l -> Forall Q l.
Proof. intros H F. induction F; constructor; auto. Qed.

(** ** The two directions *)

(** What [identifiers] answers on the text of a suffix. *)
Lemma identifiers_sound (ok : string -> bool) (t : option string) (ids : list string) :
  identifiers ok t = Some ids ->
  Forall (fun i => ok i = true) ids
  /\ match t with
     | None => ids = []
     | Some text => ids <> [] /\ text = join "." ids
     end.
Proof.
  destruct t as [text|]; simpl.
  - destruct (forallb ok (split "." text)) eqn:F; [|discriminate].
    intros H. injection H as <-. split.
    + now apply Forall_forall, forallb_forall.
    + split; [apply split_not_nil | symmetry; apply join_split].
  - intros H. injection H as <-. now split.
Qed.

Lemma identifiers_complete (ok : string -> bool) (ids : list string) :
  Forall (fun i => ok i = true) ids ->
  Forall (fun i => has_char "." i = false) ids ->
  identifiers ok (match ids with [] => None | _ :: _ => Some (join "." ids) end)
  = Some ids.
Proof.
  intros F D. destruct ids as [|x ids]; [reflexivity|].
  unfold identifiers. rewrite split_join; [|discriminate|exact D].
  assert (forallb ok (x :: ids) = true) as ->; [|reflexivity].
  now apply forallb_forall, Forall_forall.
Qed.

Lemma partition_suffix (sep : ascii) (x : string) (ids : list string) :
  has_char sep x = false ->
  partition sep (x ++ suffix (String sep "") ids)
  = (x, match ids with [] => None | _ :: _ => Some (join "." ids) end).
Proof.
  intros Hx. destruct ids as [|i ids].
  - simpl. rewrite append_nil_r. now apply partition_none.
  - change (suffix (String sep "") (i :: ids))
      with (String sep (join "." (i :: ids))).
    now apply partition_append.
Qed.

Lemma suffix_of_identifiers (ok : string -> bool) (mark : ascii)
    (t : option string) (ids : list string) :
  identifiers ok t = Some ids ->
  suffix (String mark "") ids
  = match t with None => ""%string | Some text => String mark text end.
Proof.
  intros H. destruct (identifiers_sound _ _ _ H) as [_ S].
  destruct t as [text|].
  - destruct S as [N ->]. destruct ids; [contradiction | reflexivity].
  - now subst ids.
Qed.

(** Parsing succeeds only on the text of a well-formed version, which it
    returns. *)
Lemma Version_sound (s : string) (v : version) :
  Version s = Some v -> well_formed v /\ s = format v.
Proof.
  unfold Version.
  destruct (partition "+" s) as [rest bp] eqn:P1.
  destruct (partition "-" rest) as [core pp] eqn:P2.
  pose proof (join_split "." core) as J.
  destruct (split "." core) as [|ma [|mi [|pa [|? ?]]]]; try discriminate.
  destruct (numeric_identifier ma && numeric_identifier mi && numeric_identifier pa)
    eqn:N; [|discriminate].
  destruct (identifiers prerelease_identifier pp) as [pre|] eqn:I1; [|discriminate].
  destruct (identifiers build_identifier bp) as [bld|] eqn:I2; [|discriminate].
  intros H. injection H as <-.
  apply andb_true_iff in N as [N N3]. apply andb_true_iff in N as [N1 N2].
  split.
  - unfold well_formed. simpl.
    repeat split; try assumption.
    + exact (proj1 (identifiers_sound _ _ _ I1)).
    + exact (proj1 (identifiers_sound _ _ _ I2)).
  - unfold format. simpl major; simpl minor; simpl patch;
      simpl prerelease; simpl build.
    rewrite (suffix_of_identifiers _ "-" _ _ I1).
    rewrite (suffix_of_identifiers _ "+" _ _ I2).
    assert (Hs : s = (rest ++ match bp with
                              | None => "" | Some text => String "+" text
                              end)%string).
    { destruct bp as [b|].
      - exact (proj1 (partition_found _ _ _ _ P1)).
      - rewrite append_nil_r. exact (proj1 (partition_absent _ _ _ P1)). }
    assert (Hr : rest = (core ++ match pp with
                                 | None => "" | Some text => String "-" text
                                 end)%string).
    { destruct pp as [b|].
      - exact (proj1 (partition_found _ _ _ _ P2)).
      - rewrite append_nil_r. exact (proj1 (partition_absent _ _ _ P2)). }
    rewrite Hs, Hr, <- J.
    change (join "." [ma; mi; pa]) with (ma ++ "." ++ mi ++ "." ++ pa)%string.
    now rewrite !append_assoc.
Qed.

(** The text of a well-formed version parses to that version. *)
Lemma Version_complete (v : version) :
  well_formed v -> Version (format v) = Some v.
Proof.
  destruct v as [ma mi pa pre bld]. unfold well_formed, format.
  cbn [major minor patch prerelease build].
  intros (N1 & N2 & N3 & F1 & F2).
  set (core := (ma ++ "." ++ mi ++ "." ++ pa)%string).
  assert (Hcore : forall c, is_digit c = false -> Ascii.eqb c "." = false ->
                            has_char c core = false).
  { intros c Hc Hdot. unfold core.
    rewrite !has_char_append.
    rewrite (numeric_chars _ _ N1 Hc), (numeric_chars _ _ N2 Hc),
      (numeric_chars _ _ N3 Hc).
    simpl. now rewrite Hdot. }
  assert (Hpre : forall c, is_ident_char c = false -> Ascii.eqb c "." = false ->
                           has_char c (join "." pre) = false).
  { intros c Hc Hdot. apply has_char_join; [simpl; now rewrite Hdot|].
    eapply Forall_weaken; [|exact F1].
    intros x Hx. now apply prerelease_chars. }
  assert (E : (ma ++ "." ++ mi ++ "." ++ pa ++ suffix "-" pre ++ suffix "+" bld)%string
              = ((core ++ suffix "-" pre) ++ suffix "+" bld)%string).
  { unfold core. now rewrite !append_assoc. }
  unfold Version. rewrite E.
  rewrite (partition_suffix "+").
  2:{ rewrite has_char_append, (Hcore "+"%char) by reflexivity.
      destruct pre as [|i pre]; [reflexivity|].
      change (suffix "-" (i :: pre)) with (String "-" (join "." (i :: pre))).
      change (has_char "+" (String "-" (join "." (i :: pre))))
        with (has_char "+" (join "." (i :: pre))).
      now apply Hpre. }
  rewrite (partition_suffix "-") by now apply Hcore.
  assert (S : split "." core = [ma; mi; pa]).
  { unfold core.
    change (ma ++ "." ++ mi ++ "." ++ pa)%string
      with (ma ++ String "." (mi ++ String "." pa))%string.
    rewrite split_cons by (now apply numeric_chars with (1 := N1)).
    rewrite split_cons by (now apply numeric_chars with (1 := N2)).
    rewrite split_no_sep by (now apply numeric_chars with (1 := N3)).
    reflexivity. }
  rewrite S, N1, N2, N3. cbn [andb].
  rewrite identifiers_complete; [|exact F1|].
  2:{ eapply Forall_weaken; [|exact F1]. intros x Hx. now apply prerelease_chars. }
  rewrite identifiers_complete; [reflexivity|exact F2|].
  eapply Forall_weaken; [|exact F2]. intros x Hx. now apply build_chars.
Qed.

(** The parser accepts exactly the strings of the grammar. *)
Lemma Version_SemVer (s : string) :
  (exists v, Version s = Some v) <-> SemVer s.
Proof.
  split.
  - intros [v H]. exists v. now apply Version_sound.
  - intros [v [W ->]]. exists v. now apply Version_complete.
Qed.

Lemma has_char_suffix (c m : ascii) (ids : list string) :
  Ascii.eqb c m = false ->
  has_char c (join "." ids) = false ->
  has_char c (suffix (String m "") ids) = false.
Proof.
  intros Hm Hj. destruct ids as [|i ids]; [reflexivity|].
  change (suffix (String m "") (i :: ids)) with (String m (join "." (i :: ids))).
  cbn [has_char]. now rewrite Hm, Hj.
Qed.

(** No character outside digits, letters, [.], [-] and [+] is in a version. *)
Lemma Version_chars (s : string) (v : version) (c : ascii) :
  Version s = Some v ->
  is_ident_char c = false -> Ascii.eqb c "." = false -> Ascii.eqb c "+" = false ->
  has_char c s = false.
Proof.
  intros H Hc Hdot Hplus.
  destruct (Version_sound s v H) as [(N1 & N2 & N3 & F1 & F2) ->].
  assert (Hd : is_digit c = false).
  { unfold is_ident_char in Hc.
    apply orb_false_iff in Hc as [Hc _]. now apply orb_false_iff in Hc as [Hc _]. }
  assert (Hminus : Ascii.eqb c "-" = false).
  { unfold is_ident_char in Hc. now apply orb_false_iff in Hc as [_ Hc]. }
  unfold format. rewrite !has_char_append.
  rewrite (numeric_chars _ _ N1 Hd), (numeric_chars _ _ N2 Hd),
    (numeric_chars _ _ N3 Hd).
  cbn [has_char]. rewrite Hdot. cbn [orb].
  rewrite (has_char_suffix c "-") by
    (first [ exact Hminus
           | apply has_char_join;
             [ cbn [has_char]; now rewrite Hdot
             | eapply Forall_weaken; [|exact F1];
               intros x Hx; now apply prerelease_chars ] ]).
  rewrite (has_char_suffix c "+") by
    (first [ exact Hplus
           | apply has_char_join;
             [ cbn [has_char]; now rewrite Hdot
             | eapply Forall_weaken; [|exact F2];
               intros x Hx; now apply build_chars ] ]).
  reflexivity.
Qed.

(** A version begins with a digit. *)
Lemma Version_version_like (s : string) (v : version) :
  Version s = Some v -> version_like s = true.
Proof.
  intros H. destruct (Version_sound s v H) as [(N1 & _) ->].
  unfold format. unfold numeric_identifier in N1.
  apply andb_true_iff in N1 as [N1 _]. apply andb_true_iff in N1 as [N0 N1].
  destruct (major v) as [|d m]; [discriminate N0|].
  cbn [all_chars] in N1. apply andb_true_iff in N1 as [N1 _]. exact N1.
Qed.

(** Every version that the parser accepts is safe for rendering. *)
Lemma Version_token_safe (s : string) (v : version) :
  Version s = Some v -> token_safe s = true.
Proof.
  intros H. unfold token_safe.
  rewrite (Version_version_like s v H).
  now rewrite (Version_chars s v "<" H).
Qed.

End SemVerFacts.

(* ================================================================== *)
(** * Facts about runs *)
(* ================================================================== *)

Module RunFacts.

Lemma bind_ok {A B : Type} (m : M A) (f : A -> M B) (h : list event) (fs : FS) (a : A) :
  res (m h fs) = Ok a ->
  bind m f h fs =
  mk_out (events (m h fs) ++ events (f a (h ++ events (m h fs)) (files (m h fs))))
         (files (f a (h ++ events (m h fs)) (files (m h fs))))
         (res (f a (h ++ events (m h fs)) (files (m h fs)))).
Proof. intros R. unfold bind. now rewrite R. Qed.

(** A computation that does not end normally stops the sequence. *)
Lemma bind_raise {A B : Type} (m : M A) (f : A -> M B) (h : list event) (fs : FS)
    (e : exn) :
  res (m h fs) = Raise e ->
  bind m f h fs = mk_out (events (m h fs)) (files (m h fs)) (Raise e).
Proof. intros R. unfold bind. now rewrite R. Qed.

Lemma bind_exit {A B : Type} (m : M A) (f : A -> M B) (h : list event) (fs : FS)
    (c : Z) :
  res (m h fs) = SysExit c ->
  bind m f h fs = mk_out (events (m h fs)) (files (m h fs)) (SysExit c).
Proof. intros R. unfold bind. now rewrite R. Qed.

Lemma bind_ret (A B : Type) (a : A) (f : A -> M B) (h : list event) (fs : FS) :
  bind (ret a) f h fs = f a (h ++ []) fs.
Proof. unfold bind, ret. cbn [res events files app]. now destruct (f a _ fs). Qed.

Lemma bind_emit (B : Type) (e : event) (f : unit -> M B) (h : list event) (fs : FS) :
  bind (emit e) f h fs =
  mk_out (e :: events (f tt (h ++ [e]) fs))
         (files (f tt (h ++ [e]) fs)) (res (f tt (h ++ [e]) fs)).
Proof. reflexivity. Qed.

Lemma writes_of_app (a b : list event) :
  writes_of (a ++ b) = writes_of a ++ writes_of b.
Proof.
  induction a as [|e a IH]; [reflexivity|].
  destruct e; simpl; now rewrite IH.
Qed.

Lemma runs_of_app (a b : list event) :
  runs_of (a ++ b) = runs_of a ++ runs_of b.
Proof.
  induction a as [|e a IH]; [reflexivity|].
  destruct e; simpl; now rewrite IH.
Qed.

Lemma no_run_runs (evs : list event) :
  forallb not_run evs = true -> runs_of evs = [].
Proof.
  induction evs as [|e evs IH]; [reflexivity|].
  destruct e; simpl; try exact IH. discriminate.
Qed.

Lemma no_write_writes (evs : list event) :
  forallb not_write evs = true -> writes_of evs = [].
Proof.
  induction evs as [|e evs IH]; [reflexivity|].
  destruct e; simpl; try exact IH. discriminate.
Qed.

(** ** Computations that emit one kind of events *)

Section Emits.
Context {A B : Type} (P : event -> bool).

Lemma emits_ret (a : A) : emits P (ret a).
Proof. intros h fs. reflexivity. Qed.

Lemma emits_raise (e : exn) : emits P (@raise A e).
Proof. intros h fs. reflexivity. Qed.

Lemma emits_sys_exit (c : Z) : emits P (@sys_exit A c).
Proof. intros h fs. reflexivity. Qed.

Lemma emits_bind (m : M A) (f : A -> M B) :
  emits P m -> (forall a, emits P (f a)) -> emits P (bind m f).
Proof.
  intros Hm Hf h fs. unfold bind. specialize (Hm h fs).
  destruct (res (m h fs)) as [a| |]; simpl; [|exact Hm|exact Hm].
  rewrite forallb_app, Hm. apply Hf.
Qed.

End Emits.

Lemma emits_emit (P : event -> bool) (e : event) : P e = true -> emits P (emit e).
Proof. intros H h fs. simpl. now rewrite H. Qed.

Lemma emits_for_each {A : Type} (P : event -> bool) (xs : list A) (body : A -> M unit) :
  (forall x, emits P (body x)) -> emits P (for_each xs body).
Proof.
  intros H. induction xs as [|x xs IH]; simpl.
  - apply emits_ret.
  - apply emits_bind; [apply H | intros _; exact IH].
Qed.

Ltac emits_step :=
  first
    [ apply emits_ret | apply emits_raise | apply emits_sys_exit
    | apply emits_emit; reflexivity
    | apply emits_for_each; intros ?
    | apply emits_bind; [|intros ?] ].

Lemma emits_check_return_code (P : event -> bool) (cp : CompletedProcess) (msg : string) :
  (forall l t, P (EvLog l t) = true) -> emits P (check_return_code cp msg).
Proof.
  intros HP. unfold check_return_code, decode_utf8, logger_error.
  destruct (Z.eqb (returncode cp) 0); [apply emits_ret|].
  apply emits_bind; [destruct (PyBytes.decode (stderr cp)); emits_step|intros ?].
  apply emits_bind; [apply emits_emit, HP|intros ?].
  apply emits_bind; [apply emits_emit, HP|intros ?].
  apply emits_raise.
Qed.

Lemma emits_git_command (P : event -> bool) (w : World) (t : string) (args : list string) :
  (forall a r, P (EvRun a r) = true) -> emits P (git_command w t args).
Proof.
  intros HP h fs. unfold git_command, subprocess_run.
  destruct (run_process w h _); simpl; now rewrite HP.
Qed.

(** The pull-request phase writes no file. *)
Lemma pull_requests_write_nothing (w : World) (regs : list (string * string))
    (c n : string) :
  emits not_write (prepare_pull_requests w regs c n).
Proof.
  unfold prepare_pull_requests. apply emits_for_each. intros r.
  unfold prepare_pull_request, commit_changes, logger_info.
  repeat first
    [ apply emits_git_command; reflexivity
    | apply emits_check_return_code; reflexivity
    | emits_step ].
Qed.

(** The patch phase runs no process. *)
Lemma patches_run_nothing (w : World) (regs : list (string * string)) (c n : string) :
  emits not_run (prepare_patches w regs c n).
Proof.
  unfold prepare_patches, logger_info.
  apply emits_bind; [emits_step|intros _].
  apply emits_bind; [|intros _; emits_step].
  apply emits_for_each. intros [r p]. cbn [fst snd].
  apply emits_bind; [emits_step|intros _].
  apply emits_bind.
  - intros h fs. unfold read_template, open_read.
    destruct (fs _); reflexivity.
  - intros t. unfold write_patch, logger_info.
    apply emits_bind; [emits_step|intros _].
    intros h fs. unfold open_write. destruct (can_write w _); reflexivity.
Qed.

(** ** The files that the patch phase writes *)

Lemma patch_turn_writes (w : World) (c n : string) (item : string * string)
    (h : list event) (fs : FS) :
  let o := patch_turn w c n item h fs in
  (res o = Ok tt /\ map fst (writes_of (events o)) = [patch_path w c n item])
  \/ ((forall u, res o <> Ok u) /\ writes_of (events o) = []).
Proof.
  cbv zeta. unfold patch_turn, bind, logger_info, emit, read_template, open_read,
    write_patch, open_write, logger_info, emit, bind, patch_path.
  cbn [res events files].
  destruct (fs _) as [t|]; cbn [res events files].
  - destruct (can_write w _); cbn [res events files].
    + left. split; reflexivity.
    + right. split; [intros u; discriminate | reflexivity].
  - right. split; [intros u; discriminate | reflexivity].
Qed.

Lemma patch_loop_writes (w : World) (c n : string) (regs : list (string * string)) :
  forall h fs,
  let o := for_each regs (patch_turn w c n) h fs in
  exists k, k <= List.length regs
    /\ map fst (writes_of (events o)) = firstn k (map (patch_path w c n) regs)
    /\ (res o = Ok tt -> k = List.length regs).
Proof.
  induction regs as [|item regs IH]; intros h fs; cbv zeta.
  - exists 0. split; [lia|]. split; reflexivity.
  - cbn [for_each].
    destruct (patch_turn_writes w c n item h fs) as [[R W]|[R W]].
    + rewrite (bind_ok _ _ _ _ _ R). cbn [events res].
      destruct (IH (h ++ events (patch_turn w c n item h fs))
                   (files (patch_turn w c n item h fs))) as (k & Hk & Hw & Hr).
      exists (S k). rewrite writes_of_app, map_app, W, Hw.
      cbn [List.length map firstn app].
      split; [lia|]. split; [reflexivity|].
      intros E. f_equal. now apply Hr.
    + exists 0.
      destruct (res (patch_turn w c n item h fs)) as [[]| |] eqn:E;
        [now destruct (R tt) | rewrite (bind_raise _ _ _ _ _ E)
         | rewrite (bind_exit _ _ _ _ _ E)];
        cbn [events res]; rewrite W;
        (split; [lia|]; split; [reflexivity | discriminate]).
Qed.

Lemma prepare_patches_writes (w : World) (c n : string) (regs : list (string * string))
    (h : list event) (fs : FS) :
  let o := prepare_patches w regs c n h fs in
  exists k, k <= List.length regs
    /\ map fst (writes_of (events o)) = firstn k (map (patch_path w c n) regs)
    /\ (res o = Ok tt -> k = List.length regs).
Proof.
  cbv zeta. unfold prepare_patches.
  change (for_each regs _) with (for_each regs (patch_turn w c n)).
  rewrite (bind_ok _ _ _ _ tt) by reflexivity.
  cbn [logger_info emit events res files].
  set (h1 := h ++ [EvLog INFO "started patches generation"]).
  destruct (patch_loop_writes w c n regs h1 fs) as (k & Hk & Hw & Hr).
  exists k. split; [exact Hk|].
  destruct (res (for_each regs (patch_turn w c n) h1 fs)) as [[]| |] eqn:E.
  - rewrite (bind_ok _ _ _ _ _ E). cbn [events res emit].
    rewrite !writes_of_app. cbn [writes_of app]. rewrite app_nil_r.
    split; [exact Hw | intros _; now apply Hr].
  - rewrite (bind_raise _ _ _ _ _ E). cbn [events res writes_of app].
    split; [exact Hw | discriminate].
  - rewrite (bind_exit _ _ _ _ _ E). cbn [events res writes_of app].
    split; [exact Hw | discriminate].
Qed.

End RunFacts.

(* ================================================================== *)
(** * Checked results *)
(* ================================================================== *)

Module CheckFacts.
Import RunFacts.

Lemma quiet_error_log (cp : CompletedProcess) (msg : string) :
  forallb quiet (error_log cp msg) = true.
Proof. unfold error_log. destruct (PyBytes.decode (stderr cp)); reflexivity. Qed.

Lemma runs_of_error_log (cp : CompletedProcess) (msg : string) :
  runs_of (error_log cp msg) = [].
Proof. unfold error_log. destruct (PyBytes.decode (stderr cp)); reflexivity. Qed.

Lemma disciplined_ret {A : Type} (a : A) : disciplined (ret a).
Proof. intros h fs. now apply shape_quiet with a. Qed.

Lemma disciplined_log (l : level) (msg : string) : disciplined (emit (EvLog l msg)).
Proof. intros h fs. now apply shape_quiet with tt. Qed.

Lemma disciplined_bind {A B : Type} (m : M A) (f : A -> M B) :
  disciplined m -> (forall a, disciplined (f a)) -> disciplined (bind m f).
Proof.
  intros Hm Hf h fs.
  destruct (Hm h fs) as [a Q R | pre argv cp msg E Q N R | pre argv E Q R].
  - rewrite (bind_ok _ _ _ _ _ R). cbn [events res].
    destruct (Hf a (h ++ events (m h fs)) (files (m h fs)))
      as [b Q' R' | pre argv cp msg E' Q' N' R' | pre argv E' Q' R'].
    + apply shape_quiet with b; [|exact R'].
      now rewrite forallb_app, Q, Q'.
    + apply shape_failed with (events (m h fs) ++ pre) argv cp msg;
        [| |exact N'|exact R'].
      * now rewrite E', app_assoc.
      * now rewrite forallb_app, Q, Q'.
    + apply shape_not_started with (events (m h fs) ++ pre) argv; [| |exact R'].
      * now rewrite E', app_assoc.
      * now rewrite forallb_app, Q, Q'.
  - rewrite (bind_raise _ _ _ _ _ R). cbn [events res].
    now apply shape_failed with pre argv cp msg.
  - rewrite (bind_raise _ _ _ _ _ R). cbn [events res].
    now apply shape_not_started with pre argv.
Qed.

Lemma disciplined_for_each {A : Type} (xs : list A) (body : A -> M unit) :
  (forall x, disciplined (body x)) -> disciplined (for_each xs body).
Proof.
  intros H. induction xs as [|x xs IH]; cbn [for_each].
  - apply disciplined_ret.
  - apply disciplined_bind; [apply H | intros _; exact IH].
Qed.

Lemma check_return_code_ok (cp : CompletedProcess) (msg : string) :
  returncode cp = 0%Z -> check_return_code cp msg = ret tt.
Proof. intros Z. unfold check_return_code. now rewrite Z. Qed.

Lemma check_return_code_failed (cp : CompletedProcess) (msg : string)
    (h : list event) (fs : FS) :
  returncode cp <> 0%Z ->
  check_return_code cp msg h fs = mk_out (error_log cp msg) fs (Raise (error_of cp)).
Proof.
  intros N. apply Z.eqb_neq in N.
  unfold check_return_code, decode_utf8, logger_error, error_log, error_of.
  rewrite N. destruct (PyBytes.decode (stderr cp)); reflexivity.
Qed.

Lemma git_command_run (w : World) (target : string) (arguments : list string)
    (h : list event) (fs : FS) :
  let argv := "git"%string :: "-C"%string :: target :: arguments in
  git_command w target arguments h fs =
  match run_process w h argv with
  | Some cp => mk_out [EvRun argv (Some cp)] fs (Ok cp)
  | None => mk_out [EvRun argv None] fs (Raise (OSError "git"))
  end.
Proof. reflexivity. Qed.

(** The three ways a checked git command can go. *)
Lemma checked_git_cases (w : World) (target : string) (arguments : list string)
    (msg : string) (rest : M unit) (h : list event) (fs : FS) :
  let argv := "git"%string :: "-C"%string :: target :: arguments in
  let m := bind (git_command w target arguments)
             (fun result => bind (check_return_code result msg) (fun _ => rest)) in
  match run_process w h argv with
  | None => m h fs = mk_out [EvRun argv None] fs (Raise (OSError "git"))
  | Some cp =>
      if Z.eqb (returncode cp) 0
      then m h fs =
           mk_out (EvRun argv (Some cp)
                   :: events (rest ((h ++ [EvRun argv (Some cp)]) ++ []) fs))
                  (files (rest ((h ++ [EvRun argv (Some cp)]) ++ []) fs))
                  (res (rest ((h ++ [EvRun argv (Some cp)]) ++ []) fs))
      else m h fs =
           mk_out (EvRun argv (Some cp) :: error_log cp msg) fs (Raise (error_of cp))
  end.
Proof.
  cbv zeta.
  pose proof (git_command_run w target arguments h fs) as G. cbv zeta in G.
  set (argv := "git"%string :: "-C"%string :: target :: arguments) in *.
  destruct (run_process w h argv) as [cp|].
  - destruct (Z.eqb (returncode cp) 0) eqn:Zero.
    + rewrite (bind_ok _ _ _ _ cp) by now rewrite G.
      rewrite G. cbn [events files res].
      rewrite check_return_code_ok by now apply Z.eqb_eq.
      rewrite (bind_ok _ _ _ _ tt) by reflexivity.
      reflexivity.
    + apply Z.eqb_neq in Zero.
      rewrite (bind_ok _ _ _ _ cp) by now rewrite G.
      rewrite G. cbn [events files res].
      rewrite (bind_raise _ _ _ _ (error_of cp))
        by now rewrite check_return_code_failed.
      rewrite check_return_code_failed by exact Zero.
      reflexivity.
  - rewrite (bind_raise _ _ _ _ (OSError "git")) by now rewrite G.
    now rewrite G.
Qed.

(** A git command whose result is checked at once, and what follows it. *)
Lemma disciplined_git (w : World) (target : string) (arguments : list string)
    (msg : string) (rest : M unit) :
  disciplined rest ->
  disciplined
    (bind (git_command w target arguments)
       (fun result => bind (check_return_code result msg) (fun _ => rest))).
Proof.
  intros Hrest h fs.
  pose proof (git_command_run w target arguments h fs) as G. cbv zeta in G.
  set (argv := "git"%string :: "-C"%string :: target :: arguments) in *.
  destruct (run_process w h argv) as [cp|].
  - rewrite (bind_ok _ _ _ _ cp) by now rewrite G.
    rewrite G. cbn [events files res].
    destruct (Z.eqb (returncode cp) 0) eqn:Zero.
    + rewrite check_return_code_ok by now apply Z.eqb_eq.
      rewrite (bind_ok _ _ _ _ tt) by reflexivity.
      cbn [ret events files res app].
      destruct (Hrest ((h ++ [EvRun argv (Some cp)]) ++ []) fs)
        as [b Q' R' | pre a cp' m' E' Q' N' R' | pre a E' Q' R'].
      * apply shape_quiet with b; [|exact R'].
        cbn [forallb quiet succeeded]. now rewrite Zero, Q'.
      * apply shape_failed with (EvRun argv (Some cp) :: pre) a cp' m';
          [| |exact N'|exact R'].
        -- now rewrite E'.
        -- cbn [forallb quiet succeeded]. now rewrite Zero, Q'.
      * apply shape_not_started with (EvRun argv (Some cp) :: pre) a; [| |exact R'].
        -- now rewrite E'.
        -- cbn [forallb quiet succeeded]. now rewrite Zero, Q'.
    + apply Z.eqb_neq in Zero.
      rewrite (bind_raise _ _ _ _ (error_of cp))
        by now rewrite check_return_code_failed.
      rewrite check_return_code_failed by exact Zero.
      cbn [events files res].
      now apply shape_failed with [] argv cp msg.
  - rewrite (bind_raise _ _ _ _ (OSError "git")) by now rewrite G.
    rewrite G. cbn [events files res].
    now apply shape_not_started with [] argv.
Qed.

Lemma states_of_error_log (cp : CompletedProcess) (msg : string) :
  states_of (error_log cp msg) = [].
Proof. unfold error_log. destruct (PyBytes.decode (stderr cp)); reflexivity. Qed.

Lemma states_of_cons (e : event) (rest : list event) (s : pr_state) :
  state_of_event e = Some s ->
  states_of (e :: rest)
  = match states_of rest with
    | [] => [s]
    | s' :: l => if pr_state_eqb s s' then s' :: l else s :: s' :: l
    end.
Proof. intros H. cbn [states_of]. now rewrite H. Qed.

Lemma states_of_failed (argv : list string) (cp : CompletedProcess) (msg : string)
    (s : pr_state) :
  state_of_event (EvRun argv (Some cp)) = Some s ->
  states_of (EvRun argv (Some cp) :: error_log cp msg) = [s].
Proof.
  intros H. cbn [states_of]. now rewrite H, states_of_error_log.
Qed.

Lemma runs_of_app_log (argv : list string) (cp : CompletedProcess) (msg : string) :
  runs_of (EvRun argv (Some cp) :: error_log cp msg) = [argv].
Proof. cbn [runs_of]. now rewrite runs_of_error_log. Qed.

Ltac discipline :=
  repeat first
    [ apply disciplined_git
    | apply disciplined_log
    | apply disciplined_ret
    | apply disciplined_for_each; intros ?
    | apply disciplined_bind; [|intros ?] ].

Lemma disciplined_sync_repository (w : World) (r : string) :
  disciplined (sync_repository w r).
Proof. unfold sync_repository, logger_info. discipline. Qed.

Lemma disciplined_create_branch (w : World) (r b : string) :
  disciplined (create_branch w r b).
Proof. unfold create_branch, logger_info. discipline. Qed.

Lemma disciplined_check_if_applicable (w : World) (r p : string) :
  disciplined (check_if_applicable w r p).
Proof. unfold check_if_applicable, logger_info. discipline. Qed.

Lemma disciplined_apply_patch (w : World) (r p : string) :
  disciplined (apply_patch w r p).
Proof. unfold apply_patch, logger_info. discipline. Qed.

Lemma disciplined_commit_changes (w : World) (r n : string) :
  disciplined (commit_changes w r n).
Proof. unfold commit_changes, logger_info. discipline. Qed.

Lemma disciplined_push_pr (w : World) (r b : string) :
  disciplined (push_pr w r b).
Proof. unfold push_pr, logger_info. discipline. Qed.

Lemma disciplined_prepare_pull_request (w : World) (r c n : string) :
  disciplined (prepare_pull_request w r c n).
Proof. unfold prepare_pull_request. apply disciplined_commit_changes. Qed.

Lemma disciplined_prepare_pull_requests (w : World) (regs : list (string * string))
    (c n : string) :
  disciplined (prepare_pull_requests w regs c n).
Proof.
  unfold prepare_pull_requests. apply disciplined_for_each.
  intros r. apply disciplined_prepare_pull_request.
Qed.

Lemma disciplined_as_specified (w : World) (r c n : string) :
  disciplined (prepare_pull_request_as_specified w r c n).
Proof.
  unfold prepare_pull_request_as_specified.
  repeat (apply disciplined_bind; [|intros _]);
    auto using disciplined_sync_repository, disciplined_create_branch,
      disciplined_check_if_applicable, disciplined_apply_patch,
      disciplined_commit_changes, disciplined_push_pr.
Qed.

(** ** The state of every step *)

Lemma pr_state_eqb_refl (s : pr_state) : pr_state_eqb s s = true.
Proof. now destruct s. Qed.

(** A checked git command of state [s], followed by more of that state or
    by nothing that counts, stays in [s]. *)
Lemma checked_git_state (w : World) (target : string) (arguments : list string)
    (msg : string) (rest : M unit) (s : pr_state) (h : list event) (fs : FS) :
  state_of_arguments arguments = Some s ->
  (forall h' fs', states_of (events (rest h' fs')) = []
                  \/ states_of (events (rest h' fs')) = [s]) ->
  states_of
    (events (bind (git_command w target arguments)
               (fun result => bind (check_return_code result msg) (fun _ => rest))
               h fs)) = [s].
Proof.
  intros Hs Hrest.
  pose proof (checked_git_cases w target arguments msg rest h fs) as C.
  cbv zeta in C.
  set (argv := "git"%string :: "-C"%string :: target :: arguments) in *.
  assert (Ha : forall r, state_of_event (EvRun argv r) = Some s).
  { intros r. exact Hs. }
  destruct (run_process w h argv) as [cp|].
  - destruct (Z.eqb (returncode cp) 0).
    + rewrite C. cbn [events].
      rewrite (states_of_cons _ _ s (Ha _)).
      destruct (Hrest ((h ++ [EvRun argv (Some cp)]) ++ []) fs) as [-> | ->];
        [reflexivity | now rewrite pr_state_eqb_refl].
    + rewrite C. cbn [events]. apply states_of_failed, Ha.
  - rewrite C. cbn [events]. now rewrite (states_of_cons _ _ s (Ha _)).
Qed.

Lemma log_states (l : level) (msg : string) (h : list event) (fs : FS) :
  states_of (events (emit (EvLog l msg) h fs)) = [].
Proof. reflexivity. Qed.

Lemma log_then_states (l : level) (msg : string) (rest : unit -> M unit)
    (h : list event) (fs : FS) :
  states_of (events (bind (emit (EvLog l msg)) rest h fs))
  = states_of (events (rest tt (h ++ [EvLog l msg]) fs)).
Proof. now rewrite bind_emit. Qed.

Ltac step_state :=
  repeat first
    [ apply checked_git_state; [reflexivity | intros ? ?]
    | rewrite !log_then_states; cbv beta
    | left; apply log_states
    | right ].

(** Every step function issues git commands of its own state only, and at
    least one. *)
Lemma step_states (w : World) (r b p n : string) (h : list event) (fs : FS) :
  states_of (events (sync_repository w r h fs)) = [SYNC]
  /\ states_of (events (create_branch w r b h fs)) = [BRANCH]
  /\ states_of (events (check_if_applicable w r p h fs)) = [CHECK_APPLICABLE]
  /\ states_of (events (apply_patch w r p h fs)) = [APPLY]
  /\ states_of (events (commit_changes w r n h fs)) = [COMMIT]
  /\ states_of (events (push_pr w r b h fs)) = [PUSH].
Proof.
  unfold sync_repository, create_branch, check_if_applicable, apply_patch,
    commit_changes, push_pr, logger_info.
  repeat apply conj; step_state.
Qed.

(** In a trace with one loud event, that event is found in one place. *)
Lemma loud_unique (l1 t1 l2 t2 : list event) (x y : event) :
  forallb quiet l1 = true -> forallb quiet t1 = true ->
  quiet y = false ->
  l1 ++ x :: t1 = l2 ++ y :: t2 ->
  l1 = l2 /\ x = y /\ t1 = t2.
Proof.
  intros Q1 Qt Hy. revert l2.
  induction l1 as [|a l1 IH]; intros l2 H.
  - destruct l2 as [|z l2]; cbn [app] in H.
    + injection H as -> ->. now repeat split.
    + injection H as -> H. exfalso.
      rewrite H, forallb_app in Qt. cbn [forallb] in Qt.
      rewrite Hy in Qt. rewrite andb_false_r in Qt. discriminate.
  - cbn [forallb] in Q1. apply andb_true_iff in Q1 as [Qa Q1].
    destruct l2 as [|z l2]; cbn [app] in H.
    + injection H as -> H. congruence.
    + injection H as -> H. destruct (IH Q1 l2 H) as (-> & -> & ->).
      now repeat split.
Qed.

(** A disciplined computation aborts on the first failed process. *)
Lemma disciplined_aborts {A : Type} (m : M A) :
  disciplined m -> aborts_on_failure m.
Proof.
  intros D h fs pre argv cp post E N.
  assert (L : quiet (EvRun argv (Some cp)) = false).
  { cbn [quiet succeeded]. now apply Z.eqb_neq. }
  destruct (D h fs) as [a Q R | pre' argv' cp' msg E' Q N' R | pre' argv' E' Q R].
  - exfalso. rewrite E, forallb_app in Q. cbn [forallb] in Q.
    rewrite L, andb_false_r in Q. discriminate.
  - rewrite E' in E.
    destruct (loud_unique _ _ _ _ _ _ Q (quiet_error_log cp' msg) L E)
      as (_ & X & <-).
    injection X as _ <-.
    split; [exact R|]. split; [apply runs_of_error_log | now exists msg].
  - rewrite E' in E.
    destruct (loud_unique pre' [] pre post (EvRun argv' None) _ Q eq_refl L E)
      as (_ & X & _).
    discriminate X.
Qed.

(** The same, case by case on the error stream. *)
Lemma disciplined_stops {A : Type} (m : M A) :
  disciplined m -> stops_at_failure m.
Proof.
  intros D h fs pre argv cp post E N.
  assert (L : quiet (EvRun argv (Some cp)) = false).
  { cbn [quiet succeeded]. now apply Z.eqb_neq. }
  destruct (D h fs) as [a Q R | pre' argv' cp' msg E' Q N' R | pre' argv' E' Q R].
  - exfalso. rewrite E, forallb_app in Q. cbn [forallb] in Q.
    rewrite L, andb_false_r in Q. discriminate.
  - rewrite E' in E.
    destruct (loud_unique _ _ _ _ _ _ Q (quiet_error_log cp' msg) L E)
      as (<- & X & <-).
    injection X as _ <-.
    split; [exact Q|]. split; [apply runs_of_error_log|].
    unfold error_of in R. unfold error_log.
    destruct (PyBytes.decode (stderr cp')) as [text|].
    + split; [exact R | now exists msg].
    + now split.
  - rewrite E' in E.
    destruct (loud_unique pre' [] pre post (EvRun argv' None) _ Q eq_refl L E)
      as (_ & X & _).
    discriminate X.
Qed.

End CheckFacts.

(* ================================================================== *)
(** * The properties *)
(* ================================================================== *)

Import PyStr StrFacts NameFacts RunFacts CheckFacts.

(** ** Rendering and naming *)

(** C5.  Rendering is the literal find/replace of the token
    [<current-version>] by the current version followed by the literal
    find/replace of the token [<new-version>] by the new version, and it has
    no other result; the template [v<current-version>-><new-version>] with
    1.0.0 and 1.0.1 renders to [v1.0.0->1.0.1], which is also what
    [prepare_patches] writes in the scenario of the spec. *)
Theorem render_is_literal_replace :
  (forall template c n out,
      (exists mid,
          Replaced "<current-version>" c template mid
          /\ Replaced "<new-version>" n mid out)
      <-> out = render template c n)
  /\ render "v<current-version>-><new-version>" "1.0.0" "1.0.1" = "v1.0.0->1.0.1"%string
  /\ writes_of (events (prepare_patches Sample.happy Sample.scenario_registry
                          "1.0.0" "1.0.1" [] Sample.scenario_files))
     = [("/work/repoA-bump-from-1.0.0-to-1.0.1.patch", "v1.0.0->1.0.1")]%string.
Proof.
  split; [|split; reflexivity].
  intros template c n out. unfold render, current_version_token, new_version_token.
  split.
  - intros (mid & H1 & H2).
    apply Replaced_functional in H1. apply Replaced_functional in H2.
    now subst.
  - intros ->. eexists. split; apply replace_Replaced.
Qed.

(** C6, as stated: rendering twice is rendering once, for every template
    and all version strings.  It fails for a version that contains a
    placeholder. *)
Lemma render_not_idempotent :
  ~ render_idempotent "version = <current-version>" "<current-version>.1" "2.0.0".
Proof. unfold render_idempotent. vm_compute. discriminate. Qed.

(** C6, amended: rendering twice is rendering once whenever both versions
    begin with a decimal digit and have no ["<"], as every semantic version
    does. *)
Theorem render_idempotent_on_versions (template c n : string) :
  token_safe c = true -> token_safe n = true ->
  render_idempotent template c n.
Proof.
  intros Hc Hn. unfold render_idempotent.
  destruct (render_clears template c n Hc Hn) as [H1 H2].
  unfold render at 1. unfold current_version_token, new_version_token in *.
  rewrite (replace_absent _ _ c _ H1). now rewrite (replace_absent _ _ n _ H2).
Qed.

Lemma render_idempotent_on_versions_witness :
  render_idempotent "v<current-version>-><new-version>" "1.0.0" "1.0.1".
Proof. apply render_idempotent_on_versions; reflexivity. Defined.

(** C7.  The patch file of a repository is named
    repository-bump-from-current-to-new.patch: this is the value of
    [patch_name], and the files that [prepare_patches] writes are those of
    that name in the working directory, in the order of the registry. *)
Theorem patch_name_format :
  (forall r c n,
      patch_name r c n = (r ++ "-bump-from-" ++ c ++ "-to-" ++ n ++ ".patch")%string)
  /\ (forall w regs c n h fs,
        exists k,
          map fst (writes_of (events (prepare_patches w regs c n h fs)))
          = firstn k
              (map (fun item =>
                      resolve (cwd w)
                        (fst item ++ "-bump-from-" ++ c ++ "-to-" ++ n ++ ".patch")%string)
                   regs))
  /\ patch_name "repoA" "1.0.0" "1.0.1" = "repoA-bump-from-1.0.0-to-1.0.1.patch"%string.
Proof.
  split; [exact patch_name_eq|]. split; [|reflexivity].
  intros w regs c n h fs.
  destruct (prepare_patches_writes w c n regs h fs) as (k & _ & Hw & _).
  exists k. rewrite Hw. reflexivity.
Qed.

(** C8.  On realistic inputs (a repository name without ["-bump-from-"],
    versions that begin with a digit, a current version without ["-to-"])
    two distinct triples have distinct patch names. *)
Theorem patch_name_injective (r c n r' c' n' : string) :
  realistic r c n = true -> realistic r' c' n' = true ->
  (r, c, n) <> (r', c', n') ->
  patch_name r c n <> patch_name r' c' n'.
Proof.
  intros R R' D E. apply D.
  destruct (patch_name_inj r c n r' c' n' R R' E) as (-> & -> & ->).
  reflexivity.
Qed.

Lemma patch_name_injective_witness :
  patch_name "lightspeed-service" "0.2.1" "0.2.2"
  <> patch_name "lightspeed-service" "0.2.1" "0.3.0-rc1".
Proof.
  apply patch_name_injective; [reflexivity | reflexivity | discriminate].
Defined.

(** Outside these inputs two runs can name their patches alike: a
    pre-release tag may contain the separator. *)
Lemma patch_name_collision :
  patch_name "lightspeed-service" "1.0.0-to-2.0.0" "3.0.0"
  = patch_name "lightspeed-service" "1.0.0" "2.0.0-to-3.0.0"
  /\ semantic_version.Version "1.0.0-to-2.0.0" <> None
  /\ semantic_version.Version "2.0.0-to-3.0.0" <> None.
Proof. repeat split; vm_compute; discriminate. Qed.

(** The repositories of the registry with semantic versions are realistic
    inputs, as long as the current version has no ["-to-"]. *)
Lemma registry_realistic (r p c n : string) (vc vn : semantic_version.version) :
  In (r, p) repositories ->
  semantic_version.Version c = Some vc ->
  semantic_version.Version n = Some vn ->
  contains "-to-" c = false ->
  realistic r c n = true.
Proof.
  intros I Hc Hn Hto. unfold realistic.
  rewrite (SemVerFacts.Version_version_like c vc Hc).
  rewrite (SemVerFacts.Version_version_like n vn Hn).
  rewrite Hto. cbn [In repositories] in I.
  repeat (destruct I as [I|I]; [injection I as <- <-; reflexivity|]).
  contradiction.
Qed.

(** ** Validation *)

(** C2.  [check_version_format] succeeds exactly on the strings of the form
    MAJOR.MINOR.PATCH with an optional pre-release and build suffix, and on
    every other string it fails with a [ValueError]; it has no effect. *)
Theorem check_version_format_semver (s : string) (h : list event) (fs : FS) :
  let o := check_version_format s h fs in
  (res o = Ok tt <-> semantic_version.SemVer s)
  /\ (res o = Raise (ValueError s) <-> ~ semantic_version.SemVer s)
  /\ events o = [] /\ files o = fs.
Proof.
  cbv zeta. unfold check_version_format.
  pose proof (SemVerFacts.Version_SemVer s) as V.
  destruct (semantic_version.Version s) as [v|]; cbn [ret raise res events files].
  - assert (S : semantic_version.SemVer s) by (apply V; now exists v).
    repeat split; try discriminate; tauto.
  - assert (S : ~ semantic_version.SemVer s).
    { intros S. apply V in S as [v S]. discriminate. }
    repeat split; try discriminate; tauto.
Qed.

(** ** The pull-request sequence *)

(** C1, as stated: [prepare_pull_request] goes through SYNC, BRANCH,
    CHECK-APPLICABLE, APPLY, COMMIT, PUSH.  It does not, even when every
    git command succeeds. *)
Lemma prepare_pull_request_skips_states :
  ~ follows_specified_sequence Sample.happy "lightspeed-service" "0.2.1" "0.2.2"
      [] Sample.templates.
Proof. unfold follows_specified_sequence. vm_compute. discriminate. Qed.

(** C1, amended: for every repository [prepare_pull_request] goes through
    the COMMIT state only; it invokes [git -C repository add .] and, when
    that succeeded, [git -C repository commit -m "Bump to version NEW"],
    and no other command; it ends normally exactly when no command
    failed. *)
Theorem prepare_pull_request_commits_only
    (w : World) (r c n : string) (h : list event) (fs : FS) :
  let o := prepare_pull_request w r c n h fs in
  states_of (events o) = [COMMIT]
  /\ runs_of (events o)
     = (if succeeded (run_process w h (git_add r))
        then [git_add r; git_commit r n] else [git_add r])
  /\ (res o = Ok tt <-> forallb quiet (events o) = true).
Proof.
  cbv zeta. unfold prepare_pull_request. cbv zeta. unfold commit_changes.
  match goal with
  | |- context [bind (git_command w r ?a) (fun result => bind (check_return_code result ?m) (fun _ => ?k))] =>
      pose proof (checked_git_cases w r a m k h fs) as C1; cbv zeta in C1
  end.
  change ("git" :: "-C" :: r :: ["add"; "."])%string with (git_add r) in C1.
  unfold succeeded.
  destruct (run_process w h (git_add r)) as [cp1|].
  2:{ rewrite C1. cbn [events res]. repeat split; try reflexivity; discriminate. }
  destruct (Z.eqb (returncode cp1) 0) eqn:Z1.
  2:{ rewrite C1. cbn [events res].
      rewrite (states_of_failed _ _ _ COMMIT), runs_of_app_log by reflexivity.
      cbn [forallb quiet succeeded]. rewrite Z1.
      repeat split; try reflexivity; discriminate. }
  rewrite C1. cbn [events res]. clear C1.
  set (h2 := (h ++ [EvRun (git_add r) (Some cp1)]) ++ []).
  match goal with
  | |- context [bind (git_command w r ?a) (fun result => bind (check_return_code result ?m) (fun _ => ?k))] =>
      pose proof (checked_git_cases w r a m k h2 fs) as C2; cbv zeta in C2
  end.
  change ("git" :: "-C" :: r :: ["commit"; "-m"; ("Bump to version " ++ n)%string])%string
    with (git_commit r n) in C2.
  destruct (run_process w h2 (git_commit r n)) as [cp2|].
  2:{ rewrite C2. cbn [events res forallb quiet succeeded]. rewrite Z1.
      repeat split; try reflexivity; discriminate. }
  destruct (Z.eqb (returncode cp2) 0) eqn:Z2.
  2:{ rewrite C2. cbn [events res].
      split; [|split].
      - rewrite (states_of_cons _ _ COMMIT) by reflexivity.
        rewrite (states_of_failed _ _ _ COMMIT) by reflexivity. reflexivity.
      - change (runs_of (EvRun (git_add r) (Some cp1) :: ?l))
          with (git_add r :: runs_of l).
        now rewrite runs_of_app_log.
      - cbn [forallb quiet succeeded]. rewrite Z1, Z2.
        split; discriminate. }
  rewrite C2. unfold logger_info, emit. cbn [events res forallb quiet succeeded].
  rewrite Z1, Z2. repeat split; reflexivity.
Qed.

(** C4, as stated: the error that a failed command raises carries the text
    of its error stream.  It does not when the stream is not UTF-8: the
    decoding of line 91 raises before anything is logged, and the error is
    a [UnicodeDecodeError]. *)
Lemma failed_command_without_text :
  ~ aborts_with_stderr_text
      (create_branch MoreSamples.garbled "lightspeed-service"
         "bump-from-0.2.1-to-0.2.2").
Proof.
  intros H.
  destruct (H [] Sample.templates []
              ["git"; "-C"; "lightspeed-service"; "checkout"; "-b";
               "bump-from-0.2.1-to-0.2.2"]%string
              MoreSamples.garbled_result [] eq_refl)
    as [(text & D & _) _].
  - discriminate.
  - vm_compute in D. discriminate D.
Qed.

(** C4, amended.  In every state of the sequence, and in the sequence of
    one repository and of all repositories, a git command that returns a
    nonzero code is the first that failed and makes the computation raise
    at once; nothing runs after it: no further state, no second attempt, no
    undoing.  When its error stream is UTF-8 text, the message of the step
    and that text are logged at error level and the error raised is
    [Exception(text)]; when it is not, the error raised is
    [UnicodeDecodeError] and nothing is logged. *)
Theorem failed_command_aborts (w : World) :
  (forall r, stops_at_failure (sync_repository w r))
  /\ (forall r b, stops_at_failure (create_branch w r b))
  /\ (forall r p, stops_at_failure (check_if_applicable w r p))
  /\ (forall r p, stops_at_failure (apply_patch w r p))
  /\ (forall r n, stops_at_failure (commit_changes w r n))
  /\ (forall r b, stops_at_failure (push_pr w r b))
  /\ (forall r c n, stops_at_failure (prepare_pull_request w r c n))
  /\ (forall regs c n, stops_at_failure (prepare_pull_requests w regs c n)).
Proof.
  repeat apply conj; intros; apply disciplined_stops.
  - apply disciplined_sync_repository.
  - apply disciplined_create_branch.
  - apply disciplined_check_if_applicable.
  - apply disciplined_apply_patch.
  - apply disciplined_commit_changes.
  - apply disciplined_push_pr.
  - apply disciplined_prepare_pull_request.
  - apply disciplined_prepare_pull_requests.
Qed.

(** The scenario of the spec: [git checkout -b] fails; the error carries
    what git wrote, and nothing follows but the two error records. *)
Lemma failed_command_aborts_witness :
  let o := create_branch Sample.branch_exists "lightspeed-service"
             "bump-from-0.2.1-to-0.2.2" [] Sample.templates in
  forallb quiet [] = true
  /\ runs_of (skipn 1 (events o)) = []
  /\ res o = Raise (Exception_
                      "fatal: a branch named 'bump-from-0.2.1-to-0.2.2' already exists")
  /\ exists msg,
       skipn 1 (events o)
       = [EvLog ERROR msg;
          EvLog ERROR "fatal: a branch named 'bump-from-0.2.1-to-0.2.2' already exists"].
Proof.
  cbv zeta.
  apply (proj1 (proj2 (failed_command_aborts Sample.branch_exists))
           "lightspeed-service"%string "bump-from-0.2.1-to-0.2.2"%string
           [] Sample.templates []
           ["git"; "-C"; "lightspeed-service"; "checkout"; "-b";
            "bump-from-0.2.1-to-0.2.2"]%string
           Sample.completed_failed
           (skipn 1 (events (create_branch Sample.branch_exists "lightspeed-service"
                               "bump-from-0.2.1-to-0.2.2" [] Sample.templates)))).
  - reflexivity.
  - discriminate.
Defined.

(** The same holds for the sequence that the spec describes. *)
Lemma as_specified_aborts_on_failure (w : World) (r c n : string) :
  stops_at_failure (prepare_pull_request_as_specified w r c n).
Proof. apply disciplined_stops, disciplined_as_specified. Qed.

(** With every call in place the sequence would be the specified one. *)
Lemma as_specified_follows_sequence :
  states_of (events (prepare_pull_request_as_specified Sample.happy
                       "lightspeed-service" "0.2.1" "0.2.2" [] Sample.templates))
  = specified_sequence.
Proof. vm_compute. reflexivity. Qed.

(** The last scenario of the spec: the commit fails in the second
    repository; what was done in the first stays, and nothing follows. *)
Lemma commit_failure_scenario :
  let o := prepare_pull_requests Sample.commit_fails repositories "0.2.1" "0.2.2"
             [] Sample.templates in
  runs_of (events o)
  = [git_add "lightspeed-console"; git_commit "lightspeed-console" "0.2.2";
     git_add "lightspeed-service"; git_commit "lightspeed-service" "0.2.2"]
  /\ res o = Raise (Exception_ "nothing to commit, working tree clean").
Proof. vm_compute. split; reflexivity. Qed.

(** ** The whole run *)

Lemma run_in_the_middle (l1 l2 pre post : list event) (a : list string)
    (r : option CompletedProcess) :
  runs_of l1 = [] ->
  l1 ++ l2 = pre ++ EvRun a r :: post ->
  exists mid, pre = l1 ++ mid /\ l2 = mid ++ EvRun a r :: post.
Proof.
  revert pre. induction l1 as [|x l1 IH]; intros pre N E.
  - now exists pre.
  - destruct pre as [|y pre]; cbn [app] in E.
    + injection E as -> _. discriminate N.
    + injection E as -> E.
      assert (N' : runs_of l1 = []) by (destruct y; [exact N..|discriminate N]).
      destruct (IH pre N' E) as (mid & -> & ->). now exists mid.
Qed.

Lemma no_run_in (evs pre post : list event) (a : list string)
    (r : option CompletedProcess) :
  runs_of evs = [] -> evs <> pre ++ EvRun a r :: post.
Proof.
  intros N E. rewrite E, runs_of_app in N.
  destruct (runs_of pre); discriminate N.
Qed.

(** The run with a wrong number of arguments. *)
Lemma main_usage (w : World) (argv : list string) (h : list event) (fs : FS) :
  List.length argv <> 3 ->
  main w argv h fs =
  mk_out [EvLog ERROR "Usage: python bump_up_version.py <current-version> <new-version>"]
         fs (SysExit 1%Z).
Proof.
  intros L. apply Nat.eqb_neq in L.
  unfold main, check_cli_args. rewrite L.
  now rewrite (bind_exit _ _ _ _ 1%Z) by reflexivity.
Qed.

(** The checks of a run with two arguments, before anything else [k]. *)
Lemma checks_then (k : string -> string -> M unit) (a0 c n : string)
    (h : list event) (fs : FS) :
  exists h2,
    bind (check_cli_args [a0; c; n]) (fun _ =>
    bind (index [a0; c; n] 1) (fun current_version =>
    bind (check_version_format current_version) (fun _ =>
    bind (logger_info ("current version: " ++ current_version)) (fun _ =>
    bind (index [a0; c; n] 2) (fun new_version =>
    bind (check_version_format new_version) (fun _ =>
    bind (logger_info ("new version:     " ++ new_version)) (fun _ =>
    k current_version new_version))))))) h fs =
    match semantic_version.Version c, semantic_version.Version n with
    | None, _ => mk_out [] fs (Raise (ValueError c))
    | Some _, None =>
        mk_out [EvLog INFO ("current version: " ++ c)] fs (Raise (ValueError n))
    | Some _, Some _ =>
        mk_out (EvLog INFO ("current version: " ++ c)
                :: EvLog INFO ("new version:     " ++ n)
                :: events (k c n h2 fs))
               (files (k c n h2 fs)) (res (k c n h2 fs))
    end.
Proof.
  unfold check_cli_args, index, logger_info.
  cbn [List.length Nat.eqb nth_error].
  rewrite !bind_ret. unfold check_version_format at 1.
  destruct (semantic_version.Version c).
  2:{ exists []. now rewrite (bind_raise _ _ _ _ (ValueError c)) by reflexivity. }
  rewrite bind_ret, bind_emit, bind_ret. unfold check_version_format.
  destruct (semantic_version.Version n).
  2:{ exists []. now rewrite (bind_raise _ _ _ _ (ValueError n)) by reflexivity. }
  rewrite bind_ret, bind_emit. cbn [events files res].
  match goal with
  | |- exists _, mk_out (_ :: _ :: events (_ ?h2 fs)) _ _ = _ => exists h2
  end.
  reflexivity.
Qed.

(** The run with two arguments: the two checks, then the two phases. *)
Lemma main_run (w : World) (a0 c n : string) (h : list event) (fs : FS) :
  exists h2,
    main w [a0; c; n] h fs =
    match semantic_version.Version c, semantic_version.Version n with
    | None, _ => mk_out [] fs (Raise (ValueError c))
    | Some _, None =>
        mk_out [EvLog INFO ("current version: " ++ c)] fs (Raise (ValueError n))
    | Some _, Some _ =>
        let phases := bind (prepare_patches w repositories c n)
                        (fun _ => prepare_pull_requests w repositories c n) in
        mk_out (EvLog INFO ("current version: " ++ c)
                :: EvLog INFO ("new version:     " ++ n)
                :: events (phases h2 fs))
               (files (phases h2 fs)) (res (phases h2 fs))
    end.
Proof.
  exact (checks_then
           (fun c n => bind (prepare_patches w repositories c n)
                         (fun _ => prepare_pull_requests w repositories c n))
           a0 c n h fs).
Qed.

(** C3.  When the current version on the command line is not a semantic
    version (as ["abc"]), the run ends with a nonzero exit status and has
    written no file and run no process; the files are as they were. *)
Theorem malformed_current_version_aborts
    (w : World) (argv : list string) (c : string) (h : list event) (fs : FS) :
  nth_error argv 1 = Some c ->
  semantic_version.Version c = None ->
  let o := main w argv h fs in
  exit_status (res o) <> 0%Z
  /\ writes_of (events o) = []
  /\ runs_of (events o) = []
  /\ files o = fs.
Proof.
  intros Hc Hv. cbv zeta.
  destruct argv as [|a0 [|a1 [|a2 [|a3 rest]]]]; try discriminate Hc;
    cbn [nth_error] in Hc; injection Hc as ->.
  - rewrite main_usage by discriminate.
    cbn [res events files exit_status writes_of runs_of].
    repeat split; discriminate.
  - destruct (main_run w a0 c a2 h fs) as [h2 ->]. rewrite Hv.
    cbn [res events files exit_status writes_of runs_of].
    repeat split; discriminate.
  - rewrite main_usage by discriminate.
    cbn [res events files exit_status writes_of runs_of].
    repeat split; discriminate.
Qed.

Lemma malformed_current_version_aborts_witness :
  let o := main Sample.happy ["./bump_up_version.py"; "abc"; "1.0.1"]%string
             [] Sample.templates in
  exit_status (res o) <> 0%Z
  /\ writes_of (events o) = []
  /\ runs_of (events o) = []
  /\ files o = Sample.templates.
Proof.
  apply (malformed_current_version_aborts Sample.happy
           ["./bump_up_version.py"; "abc"; "1.0.1"]%string "abc"%string);
    reflexivity.
Defined.

(** C9.  Whenever a run invokes a process, the patch files of all the
    repositories of the registry have been written before it, in the order
    of the registry, and no file is written after it: the patches are a
    phase of their own that precedes every git command. *)
Theorem patches_precede_git
    (w : World) (argv : list string) (h : list event) (fs : FS)
    (pre post : list event) (a : list string) (r : option CompletedProcess) :
  events (main w argv h fs) = pre ++ EvRun a r :: post ->
  exists c n,
    nth_error argv 1 = Some c /\ nth_error argv 2 = Some n
    /\ map fst (writes_of pre) = map (patch_path w c n) repositories
    /\ writes_of post = [].
Proof.
  intros E.
  destruct argv as [|a0 [|c [|n [|x rest]]]];
    try (exfalso; rewrite main_usage in E by discriminate;
         revert E; apply no_run_in; reflexivity).
  exists c, n. split; [reflexivity|]. split; [reflexivity|].
  destruct (main_run w a0 c n h fs) as [h2 M]. rewrite M in E. clear M.
  destruct (semantic_version.Version c);
    [|exfalso; revert E; apply no_run_in; reflexivity].
  destruct (semantic_version.Version n);
    [|exfalso; revert E; apply no_run_in; reflexivity].
  cbv zeta in E. cbn [events] in E.
  pose proof (prepare_patches_writes w c n repositories h2 fs) as PW.
  pose proof (patches_run_nothing w repositories c n h2 fs) as PR.
  apply no_run_runs in PR.
  destruct (res (prepare_patches w repositories c n h2 fs)) as [[]| |] eqn:RP;
    [ rewrite (bind_ok _ _ _ _ tt RP) in E
    | rewrite (bind_raise _ _ _ _ _ RP) in E
    | rewrite (bind_exit _ _ _ _ _ RP) in E ];
    cbn [res events files] in E.
  2,3: exfalso; revert E; apply no_run_in; cbn [runs_of]; exact PR.
  cbv zeta in PW. destruct PW as (k & _ & Hw & Hk).
  rewrite (Hk RP), firstn_all2 in Hw by (rewrite length_map; lia).
  match type of E with
  | ?e1 :: ?e2 :: ?l1 ++ ?l2 = _ =>
      change ((e1 :: e2 :: l1) ++ l2 = pre ++ EvRun a r :: post) in E;
      apply run_in_the_middle in E; [|cbn [runs_of]; exact PR]
  end.
  destruct E as (mid & -> & E).
  match type of E with
  | events (prepare_pull_requests w repositories c n ?h3 ?f3) = _ =>
      pose proof (pull_requests_write_nothing w repositories c n h3 f3) as NW;
      apply no_write_writes in NW; rewrite E, writes_of_app in NW
  end.
  apply app_eq_nil in NW as [Nmid Npost]. cbn [writes_of] in Npost.
  split; [|exact Npost].
  rewrite writes_of_app, Nmid, app_nil_r. cbn [writes_of]. exact Hw.
Qed.

Lemma patches_precede_git_witness :
  exists c n,
    nth_error Sample.argv_example 1 = Some c
    /\ nth_error Sample.argv_example 2 = Some n
    /\ map fst (writes_of
                  (firstn 20 (events (main Sample.happy Sample.argv_example []
                                        Sample.templates))))
       = map (patch_path Sample.happy c n) repositories
    /\ writes_of (skipn 21 (events (main Sample.happy Sample.argv_example []
                                      Sample.templates))) = [].
Proof.
  apply (patches_precede_git Sample.happy Sample.argv_example [] Sample.templates
           (firstn 20 (events (main Sample.happy Sample.argv_example []
                                 Sample.templates)))
           (skipn 21 (events (main Sample.happy Sample.argv_example []
                                Sample.templates)))
           (git_add "lightspeed-console") (Some Sample.completed_ok)).
  reflexivity.
Defined.

(** ** Where files are read and written *)

Lemma is_absolute_append (a b : string) :
  is_absolute a = true -> is_absolute (a ++ b) = true.
Proof. destruct a as [|x a]; [discriminate | trivial]. Qed.

(** C10.  For every repository of the registry the template is read from
    the directory of the script joined with the path of the registry,
    wherever the process runs, and the patch is written to the working
    directory, wherever the script is; a relative name designates the same
    file in both places exactly when the working directory is the directory
    of the script. *)
Theorem template_and_patch_locations
    (w : World) (repository patch c n content : string)
    (h : list event) (fs : FS) :
  is_absolute (script_dir w) = true ->
  In (repository, patch) repositories ->
  reads_of (events (read_template w patch h fs))
  = [(script_dir w ++ "/" ++ patch)%string]
  /\ writes_of (events (write_patch w (patch_name repository c n) content h fs))
     = (if can_write w (cwd w ++ "/" ++ patch_name repository c n)%string
        then [((cwd w ++ "/" ++ patch_name repository c n)%string, content)]
        else [])
  /\ (forall name, is_absolute name = false ->
        resolve (cwd w) (path_join (script_dir w) name) = resolve (cwd w) name
        <-> script_dir w = cwd w).
Proof.
  intros Abs I.
  assert (Rel : is_absolute patch = false
                /\ is_absolute (patch_name repository c n) = false).
  { cbn [In repositories] in I.
    repeat (destruct I as [I|I]; [injection I as <- <-; split; reflexivity|]).
    contradiction. }
  destruct Rel as [Rp Rn].
  split; [|split].
  - unfold read_template, open_read, path_join, resolve. rewrite Rp.
    rewrite (is_absolute_append _ _ Abs).
    destruct (fs _); reflexivity.
  - unfold write_patch, logger_info, open_write, bind, emit, resolve.
    rewrite Rn. cbn [res events files app].
    destruct (can_write w _); reflexivity.
  - intros name Rel. unfold path_join, resolve. rewrite Rel.
    rewrite (is_absolute_append _ _ Abs).
    split.
    + apply append_inv_tail.
    + now intros ->.
Qed.

Lemma template_and_patch_locations_witness :
  reads_of (events (read_template Sample.happy "version_patches/service.patch"
                      [] Sample.templates))
  = ["/src/hack/version_patches/service.patch"]%string
  /\ writes_of (events (write_patch Sample.happy
                          (patch_name "lightspeed-service" "0.2.1" "0.2.2")
                          "v0.2.1->0.2.2" [] Sample.templates))
     = [("/work/lightspeed-service-bump-from-0.2.1-to-0.2.2.patch",
         "v0.2.1->0.2.2")]%string
  /\ (forall name, is_absolute name = false ->
        resolve "/work" (path_join "/src/hack" name) = resolve "/work" name
        <-> "/src/hack"%string = "/work"%string).
Proof.
  apply (template_and_patch_locations Sample.happy "lightspeed-service"
           "version_patches/service.patch" "0.2.1" "0.2.2" "v0.2.1->0.2.2"
           [] Sample.templates).
  - reflexivity.
  - cbn [In repositories]. right. left. reflexivity.
Defined.

(* ================================================================== *)
(** * Plans of commands *)
(* ================================================================== *)

Module PlanFacts.

Lemma plan_ret {A : Type} (a : A) : follows_plan [] (ret a).
Proof. intros h fs. left. now split. Qed.

Lemma plan_log (l : level) (msg : string) : follows_plan [] (emit (EvLog l msg)).
Proof. intros h fs. left. now split. Qed.

Lemma firstn_app_short {A : Type} (k : nat) (l1 l2 : list A) :
  k <= List.length l1 -> firstn k (l1 ++ l2) = firstn k l1.
Proof.
  intros H. rewrite firstn_app.
  replace (k - List.length l1) with 0 by lia.
  now rewrite firstn_O, app_nil_r.
Qed.

Lemma firstn_app_long {A : Type} (k : nat) (l1 l2 : list A) :
  firstn (S (List.length l1 + k)) (l1 ++ l2) = l1 ++ firstn (S k) l2.
Proof.
  rewrite firstn_app.
  rewrite firstn_all2 by lia.
  now replace (S (List.length l1 + k) - List.length l1) with (S k) by lia.
Qed.

(** Plans compose: first the plan of [m], then the plan of what follows. *)
Lemma plan_bind {A B : Type} (p1 p2 : list (list string)) (m : M A) (f : A -> M B) :
  follows_plan p1 m -> (forall a, follows_plan p2 (f a)) ->
  follows_plan (p1 ++ p2) (bind m f).
Proof.
  intros Hm Hf h fs.
  destruct (Hm h fs) as [[O1 R1] | [O1 (k & Hk & R1)]].
  - destruct (res (m h fs)) as [a| |] eqn:E; try discriminate O1.
    rewrite (bind_ok _ _ _ _ _ E). cbn [events res].
    rewrite runs_of_app, R1.
    destruct (Hf a (h ++ events (m h fs)) (files (m h fs)))
      as [[O2 R2] | [O2 (k & Hk & R2)]].
    + left. now rewrite R2.
    + right. split; [exact O2|]. exists (List.length p1 + k).
      split; [rewrite length_app; lia|].
      now rewrite R2, firstn_app_long.
  - right.
    destruct (res (m h fs)) as [a| |] eqn:E; try discriminate O1;
      [rewrite (bind_raise _ _ _ _ _ E) | rewrite (bind_exit _ _ _ _ _ E)];
      cbn [events res is_ok]; (split; [reflexivity|]); exists k;
      (split; [rewrite length_app; lia|]);
      rewrite R1; symmetry; apply firstn_app_short; lia.
Qed.

Lemma plan_log_then (p : list (list string)) (l : level) (msg : string)
    (rest : M unit) :
  follows_plan p rest -> follows_plan p (bind (emit (EvLog l msg)) (fun _ => rest)).
Proof.
  intros H. apply (plan_bind [] p); [apply plan_log | intros _; exact H].
Qed.

(** A checked git command comes first in the plan. *)
Lemma plan_git (w : World) (target : string) (arguments : list string)
    (msg : string) (rest : M unit) (p : list (list string)) :
  follows_plan p rest ->
  follows_plan (("git" :: "-C" :: target :: arguments)%string :: p)
    (bind (git_command w target arguments)
       (fun result => bind (check_return_code result msg) (fun _ => rest))).
Proof.
  intros Hrest h fs.
  pose proof (checked_git_cases w target arguments msg rest h fs) as C.
  cbv zeta in C.
  set (argv := ("git" :: "-C" :: target :: arguments)%string) in *.
  destruct (run_process w h argv) as [cp|].
  - destruct (Z.eqb (returncode cp) 0).
    + rewrite C. cbn [events res runs_of].
      destruct (Hrest ((h ++ [EvRun argv (Some cp)]) ++ []) fs)
        as [[O R] | [O (k & Hk & R)]].
      * left. now rewrite R.
      * right. split; [exact O|]. exists (S k). cbn [List.length firstn].
        split; [lia | now rewrite R].
    + rewrite C. cbn [events res is_ok]. right. split; [reflexivity|].
      exists 0. cbn [List.length firstn]. split; [lia|].
      apply runs_of_app_log.
  - rewrite C. cbn [events res is_ok runs_of]. right. split; [reflexivity|].
    exists 0. cbn [List.length firstn]. split; [lia | reflexivity].
Qed.

Lemma plan_for_each {A : Type} (plan : A -> list (list string)) (xs : list A)
    (body : A -> M unit) :
  (forall x, follows_plan (plan x) (body x)) ->
  follows_plan (concat (map plan xs)) (for_each xs body).
Proof.
  intros H. induction xs as [|x xs IH]; cbn [for_each map concat].
  - apply plan_ret.
  - apply plan_bind; [apply H | intros _; exact IH].
Qed.

Ltac plan :=
  repeat first
    [ apply plan_git
    | apply plan_log_then
    | apply plan_log
    | apply plan_ret ].

Lemma plan_commit_changes (w : World) (r n : string) :
  follows_plan [git_add r; git_commit r n] (commit_changes w r n).
Proof. unfold commit_changes, logger_info, git_add, git_commit. plan. Qed.

Lemma plan_prepare_pull_requests (w : World) (regs : list (string * string))
    (c n : string) :
  follows_plan (commit_plan n regs) (prepare_pull_requests w regs c n).
Proof.
  unfold prepare_pull_requests, commit_plan.
  induction regs as [|item regs IH]; cbn [for_each map concat].
  - apply plan_ret.
  - apply (plan_bind [git_add (fst item); git_commit (fst item) n]).
    + unfold prepare_pull_request. apply plan_commit_changes.
    + intros _. exact IH.
Qed.

(** ** Plans whose commands are checked *)

Lemma outcomes_of_app (a b : list event) :
  outcomes_of (a ++ b) = outcomes_of a ++ outcomes_of b.
Proof.
  induction a as [|e a IH]; [reflexivity|].
  destruct e; cbn [app outcomes_of]; now rewrite IH.
Qed.

Lemma outcomes_of_quiet (evs : list event) :
  forallb quiet evs = true -> outcomes_of evs = passed (runs_of evs).
Proof.
  induction evs as [|e evs IH]; intros Q; [reflexivity|].
  cbn [forallb] in Q. apply andb_true_iff in Q as [Qe Q].
  destruct e; cbn [outcomes_of runs_of]; try now apply IH.
  cbn [quiet] in Qe. unfold passed. cbn [map]. rewrite Qe. f_equal. now apply IH.
Qed.

Lemma outcomes_of_error_log (cp : CompletedProcess) (msg : string) :
  outcomes_of (error_log cp msg) = [].
Proof. unfold error_log. destruct (PyBytes.decode (stderr cp)); reflexivity. Qed.

Lemma firstn_succ_nth {A : Type} (k : nat) (l : list A) :
  k < List.length l ->
  exists x, nth_error l k = Some x /\ firstn (S k) l = firstn k l ++ [x].
Proof.
  revert l. induction k as [|k IH]; intros [|y l] L; cbn [List.length] in L; try lia.
  - now exists y.
  - destruct (IH l) as (x & N & F); [lia|].
    exists x. split; [exact N|].
    change (firstn (S (S k)) (y :: l)) with (y :: firstn (S k) l).
    now rewrite F.
Qed.

(** A computation that checks every process and follows a plan runs the
    plan as a checked plan. *)
Lemma checked_plan_of {A : Type} (plan : list (list string)) (m : M A) :
  disciplined m -> follows_plan plan m -> checked_plan plan m.
Proof.
  intros D P h fs.
  destruct (D h fs) as [a Q R | pre argv cp msg E Q N R | pre argv E Q R];
    destruct (P h fs) as [[O Rn] | [O (k & Hk & Rn)]];
    try (rewrite R in O; discriminate O).
  - left. split; [exact O|]. rewrite (outcomes_of_quiet _ Q). now rewrite Rn.
  - right. split; [exact O|].
    destruct (firstn_succ_nth k plan Hk) as (x & Nx & F).
    rewrite E, runs_of_app, runs_of_app_log, F in Rn.
    apply app_inj_tail in Rn as [Rp <-].
    exists k, argv. split; [exact Nx|].
    rewrite E, outcomes_of_app. cbn [outcomes_of succeeded].
    rewrite outcomes_of_error_log, (outcomes_of_quiet _ Q), Rp.
    apply Z.eqb_neq in N. now rewrite N.
  - right. split; [exact O|].
    destruct (firstn_succ_nth k plan Hk) as (x & Nx & F).
    rewrite E, runs_of_app, F in Rn. cbn [runs_of] in Rn.
    apply app_inj_tail in Rn as [Rp <-].
    exists k, argv. split; [exact Nx|].
    rewrite E, outcomes_of_app. cbn [outcomes_of succeeded].
    now rewrite (outcomes_of_quiet _ Q), Rp.
Qed.

(** ** When every process succeeds *)

Lemma quiet_git (w : World) (target : string) (arguments : list string) :
  (forall h argv, succeeded (run_process w h argv) = true) ->
  emits quiet (git_command w target arguments).
Proof.
  intros S h fs. rewrite git_command_run. cbv zeta.
  specialize (S h ("git" :: "-C" :: target :: arguments)%string).
  destruct (run_process w h _) as [cp|]; [|discriminate S].
  cbn [events forallb quiet]. now rewrite S.
Qed.

Lemma quiet_prepare_pull_requests (w : World) (regs : list (string * string))
    (c n : string) :
  (forall h argv, succeeded (run_process w h argv) = true) ->
  emits quiet (prepare_pull_requests w regs c n).
Proof.
  intros S. unfold prepare_pull_requests. apply emits_for_each. intros r.
  unfold prepare_pull_request, commit_changes, logger_info.
  repeat first
    [ apply quiet_git; exact S
    | apply emits_check_return_code; reflexivity
    | emits_step ].
Qed.

(** A checked computation whose processes all succeeded ends normally. *)
Lemma quiet_ok {A : Type} (m : M A) (h : list event) (fs : FS) :
  disciplined m -> forallb quiet (events (m h fs)) = true ->
  is_ok (res (m h fs)) = true.
Proof.
  intros D Q.
  destruct (D h fs) as [a _ R | pre argv cp msg E _ N _ | pre argv E _ _].
  - now rewrite R.
  - exfalso. rewrite E, forallb_app in Q. cbn [forallb quiet succeeded] in Q.
    apply Z.eqb_neq in N. rewrite N in Q.
    cbn [andb] in Q. rewrite andb_false_r in Q. discriminate.
  - exfalso. rewrite E, forallb_app in Q. cbn [forallb quiet succeeded] in Q.
    cbn [andb] in Q. rewrite andb_false_r in Q. discriminate.
Qed.

End PlanFacts.

(* ================================================================== *)
(** * The patch phase in detail *)
(* ================================================================== *)

Module PatchFacts.

Lemma reads_of_app (a b : list event) :
  reads_of (a ++ b) = reads_of a ++ reads_of b.
Proof.
  induction a as [|e a IH]; [reflexivity|].
  destruct e; cbn [app reads_of]; now rewrite IH.
Qed.

(** The three ways one turn of the loop can go. *)
Lemma patch_turn_run (w : World) (c n : string) (item : string * string)
    (h : list event) (fs : FS) :
  patch_turn w c n item h fs =
  let announce :=
    EvLog INFO ("preparing patch for repository '" ++ fst item ++ "'") in
  let creating :=
    EvLog INFO ("creating patch file: " ++ patch_name (fst item) c n) in
  match fs (template_path w item) with
  | None =>
      mk_out [announce; EvRead (template_path w item)] fs
        (Raise (OSError (path_join (script_dir w) (snd item))))
  | Some template =>
      if can_write w (patch_path w c n item)
      then mk_out [announce; EvRead (template_path w item); creating;
                   EvWrite (patch_path w c n item) (render template c n)]
             (fs_update fs (patch_path w c n item) (render template c n))
             (Ok tt)
      else mk_out [announce; EvRead (template_path w item); creating] fs
             (Raise (OSError (patch_name (fst item) c n)))
  end.
Proof.
  cbv zeta.
  unfold patch_turn, bind, logger_info, emit, read_template, open_read,
    write_patch, open_write, logger_info, emit, bind, patch_path, template_path.
  cbn [res events files].
  destruct (fs _) as [t|]; cbn [res events files app]; [|reflexivity].
  destruct (can_write w _); reflexivity.
Qed.

Lemma fs_update_other (fs : FS) (p q content : string) :
  q <> p -> fs_update fs p content q = fs q.
Proof.
  intros H. unfold fs_update.
  destruct (String.eqb q p) eqn:E; [|reflexivity].
  apply String.eqb_eq in E. contradiction.
Qed.

Lemma fs_update_same (fs : FS) (p content : string) :
  fs_update fs p content p = Some content.
Proof. unfold fs_update. now rewrite String.eqb_refl. Qed.

Lemma text_at_update (fs : FS) (p q content : string) :
  q <> p -> text_at (fs_update fs p content) q = text_at fs q.
Proof. intros H. unfold text_at. now rewrite fs_update_other. Qed.

(** What a loop that ends normally has done. *)
Lemma patch_loop_content (w : World) (c n : string) (regs : list (string * string)) :
  forall h fs,
  (forall i j, In i regs -> In j regs -> patch_path w c n i <> template_path w j) ->
  res (for_each regs (patch_turn w c n) h fs) = Ok tt ->
  let o := for_each regs (patch_turn w c n) h fs in
  writes_of (events o)
  = map (fun item => (patch_path w c n item,
                      render (text_at fs (template_path w item)) c n)) regs
  /\ reads_of (events o) = map (template_path w) regs
  /\ (forall item, In item regs ->
        fs (template_path w item) <> None
        /\ can_write w (patch_path w c n item) = true)
  /\ (forall p, files o p = after_writes fs (writes_of (events o)) p).
Proof.
  induction regs as [|item regs IH]; intros h fs D R; cbv zeta.
  - cbn. repeat split; contradiction.
  - cbn [for_each] in R |- *.
    pose proof (patch_turn_run w c n item h fs) as T. cbv zeta in T.
    destruct (fs (template_path w item)) as [t|] eqn:Ft.
    2:{ rewrite (bind_raise _ _ _ _ _ (f_equal res T)) in R. discriminate R. }
    destruct (can_write w (patch_path w c n item)) eqn:Cw.
    2:{ rewrite (bind_raise _ _ _ _ _ (f_equal res T)) in R. discriminate R. }
    rewrite (bind_ok _ _ _ _ tt (f_equal res T)) in R |- *.
    rewrite T in R |- *. cbn [events files res] in R |- *.
    set (h1 := h ++ _) in *.
    set (fs1 := fs_update fs (patch_path w c n item) (render t c n)) in *.
    assert (D' : forall i j, In i regs -> In j regs ->
                   patch_path w c n i <> template_path w j).
    { intros i j Hi Hj. apply D; now right. }
    destruct (IH h1 fs1 D' R) as (Hw & Hr & Hp & Hf). cbv zeta in Hw, Hr, Hp, Hf.
    assert (Same : forall j, In j regs ->
                     fs1 (template_path w j) = fs (template_path w j)).
    { intros j Hj. unfold fs1. apply fs_update_other.
      intros E. apply (D item j); [now left | now right | now symmetry]. }
    split; [|split; [|split]].
    + cbn [app writes_of map]. rewrite Hw. f_equal.
      * unfold text_at. now rewrite Ft.
      * apply map_ext_in. intros j Hj. unfold text_at. now rewrite (Same j Hj).
    + cbn [app reads_of map]. now rewrite Hr.
    + intros j [<- | Hj].
      * split; [rewrite Ft; discriminate | exact Cw].
      * destruct (Hp j Hj) as [P1 P2]. split; [|exact P2].
        now rewrite <- (Same j Hj).
    + intros p. cbn [app writes_of after_writes]. apply Hf.
Qed.

(** The same for [prepare_patches], which adds two log records. *)
Lemma prepare_patches_content (w : World) (c n : string)
    (regs : list (string * string)) (h : list event) (fs : FS) :
  (forall i j, In i regs -> In j regs -> patch_path w c n i <> template_path w j) ->
  res (prepare_patches w regs c n h fs) = Ok tt ->
  let o := prepare_patches w regs c n h fs in
  writes_of (events o)
  = map (fun item => (patch_path w c n item,
                      render (text_at fs (template_path w item)) c n)) regs
  /\ reads_of (events o) = map (template_path w) regs
  /\ (forall item, In item regs ->
        fs (template_path w item) <> None
        /\ can_write w (patch_path w c n item) = true)
  /\ (forall p, files o p = after_writes fs (writes_of (events o)) p).
Proof.
  intros D R. cbv zeta. unfold prepare_patches in R |- *.
  change (for_each regs _) with (for_each regs (patch_turn w c n)) in R |- *.
  unfold logger_info in R |- *.
  rewrite bind_emit in R |- *. cbn [events files res] in R |- *.
  set (h1 := h ++ [EvLog INFO "started patches generation"]) in *.
  destruct (res (for_each regs (patch_turn w c n) h1 fs)) as [[]| |] eqn:E.
  2:{ rewrite (bind_raise _ _ _ _ _ E) in R. discriminate R. }
  2:{ rewrite (bind_exit _ _ _ _ _ E) in R. discriminate R. }
  rewrite (bind_ok _ _ _ _ tt E). cbn [events files res emit].
  destruct (patch_loop_content w c n regs h1 fs D E) as (Hw & Hr & Hp & Hf).
  cbv zeta in Hw, Hr, Hp, Hf.
  cbn [writes_of reads_of].
  rewrite writes_of_app, reads_of_app. cbn [writes_of reads_of].
  rewrite !app_nil_r.
  repeat split; try assumption; apply Hp; assumption.
Qed.

(** Conversely the loop ends normally when every template is there and
    every patch may be written. *)
Lemma patch_loop_succeeds (w : World) (c n : string) (regs : list (string * string)) :
  forall h fs,
  (forall item, In item regs ->
     fs (template_path w item) <> None
     /\ can_write w (patch_path w c n item) = true) ->
  res (for_each regs (patch_turn w c n) h fs) = Ok tt.
Proof.
  induction regs as [|item regs IH]; intros h fs P; [reflexivity|].
  cbn [for_each].
  pose proof (patch_turn_run w c n item h fs) as T. cbv zeta in T.
  destruct (P item (or_introl eq_refl)) as [Pt Pw].
  destruct (fs (template_path w item)) as [t|] eqn:Ft; [|contradiction].
  rewrite Pw in T.
  rewrite (bind_ok _ _ _ _ tt (f_equal res T)). cbn [res].
  apply IH. intros j Hj. destruct (P j (or_intror Hj)) as [Qt Qw].
  split; [|exact Qw].
  rewrite T. cbn [files]. unfold fs_update.
  destruct (String.eqb _ _); [discriminate | exact Qt].
Qed.

Lemma prepare_patches_succeeds (w : World) (c n : string)
    (regs : list (string * string)) (h : list event) (fs : FS) :
  (forall item, In item regs ->
     fs (template_path w item) <> None
     /\ can_write w (patch_path w c n item) = true) ->
  res (prepare_patches w regs c n h fs) = Ok tt.
Proof.
  intros P. unfold prepare_patches.
  change (for_each regs _) with (for_each regs (patch_turn w c n)).
  unfold logger_info. rewrite bind_emit. cbn [res].
  rewrite (bind_ok _ _ _ _ tt) by now apply patch_loop_succeeds.
  reflexivity.
Qed.

(** A template that is missing, and that no patch of the run can stand for,
    makes the loop fail. *)
Lemma patch_loop_missing (w : World) (c n : string) (regs : list (string * string)) :
  forall h fs item,
  In item regs ->
  fs (template_path w item) = None ->
  (forall i, In i regs -> patch_path w c n i <> template_path w item) ->
  is_ok (res (for_each regs (patch_turn w c n) h fs)) = false.
Proof.
  induction regs as [|x regs IH]; intros h fs item I F D; [contradiction|].
  cbn [for_each].
  pose proof (patch_turn_run w c n x h fs) as T. cbv zeta in T.
  destruct (fs (template_path w x)) as [t|] eqn:Ft.
  2:{ now rewrite (bind_raise _ _ _ _ _ (f_equal res T)). }
  destruct (can_write w (patch_path w c n x)) eqn:Cw.
  2:{ now rewrite (bind_raise _ _ _ _ _ (f_equal res T)). }
  rewrite (bind_ok _ _ _ _ tt (f_equal res T)). cbn [res].
  destruct I as [<- | I]; [congruence|].
  apply (IH _ _ item I).
  - rewrite T. cbn [files]. rewrite fs_update_other; [exact F|].
    intros E. apply (D x); [now left | now symmetry].
  - intros i Hi. apply D. now right.
Qed.

Lemma prepare_patches_missing (w : World) (c n : string)
    (regs : list (string * string)) (h : list event) (fs : FS)
    (item : string * string) :
  In item regs ->
  fs (template_path w item) = None ->
  (forall i, In i regs -> patch_path w c n i <> template_path w item) ->
  is_ok (res (prepare_patches w regs c n h fs)) = false.
Proof.
  intros I F D. unfold prepare_patches.
  change (for_each regs _) with (for_each regs (patch_turn w c n)).
  unfold logger_info. rewrite bind_emit. cbn [res].
  pose proof (patch_loop_missing w c n regs
                (h ++ [EvLog INFO "started patches generation"]) fs item I F D) as L.
  destruct (res (for_each regs (patch_turn w c n) _ fs)) as [u| |] eqn:E;
    [discriminate L | now rewrite (bind_raise _ _ _ _ _ E)
     | now rewrite (bind_exit _ _ _ _ _ E)].
Qed.

(** ** The files after the writes *)

Lemma after_writes_other (ws : list (string * string)) :
  forall fs p, ~ In p (map fst ws) -> after_writes fs ws p = fs p.
Proof.
  induction ws as [|[q c] ws IH]; intros fs p N; [reflexivity|].
  cbn [after_writes]. cbn [map fst In] in N.
  rewrite IH by tauto. apply fs_update_other. intros E. apply N. now left.
Qed.

Lemma after_writes_lookup (ws : list (string * string)) :
  forall fs p c, NoDup (map fst ws) -> In (p, c) ws ->
                 after_writes fs ws p = Some c.
Proof.
  induction ws as [|[q d] ws IH]; intros fs p c N I; [contradiction|].
  cbn [map fst] in N. inversion N as [|? ? Nq Nws]; subst.
  cbn [after_writes]. destruct I as [E | I].
  - injection E as -> ->. rewrite after_writes_other by exact Nq.
    apply fs_update_same.
  - now apply IH.
Qed.

End PatchFacts.

(* ================================================================== *)
(** * The registry *)
(* ================================================================== *)

Module RegistryFacts.
Import PyStr StrFacts NameFacts PatchFacts.

(** A text cut at its last separator is cut in one way only. *)
Lemma last_sep_split (sep : ascii) (a b a' b' : string) :
  has_char sep b = false -> has_char sep b' = false ->
  (a ++ String sep b)%string = (a' ++ String sep b')%string ->
  a = a' /\ b = b'.
Proof.
  intros Hb Hb'. revert a'.
  induction a as [|x a IH]; intros a' E.
  - destruct a' as [|y a']; cbn [append] in E.
    + injection E as ->. now split.
    + injection E as _ E. exfalso.
      rewrite E, has_char_append in Hb. cbn [has_char] in Hb.
      rewrite Ascii.eqb_refl in Hb. cbn [orb] in Hb.
      rewrite orb_true_r in Hb. discriminate.
  - destruct a' as [|y a']; cbn [append] in E.
    + injection E as _ E. exfalso.
      rewrite <- E, has_char_append in Hb'. cbn [has_char] in Hb'.
      rewrite Ascii.eqb_refl in Hb'. cbn [orb] in Hb'.
      rewrite orb_true_r in Hb'. discriminate.
    + injection E as -> E. destruct (IH a' E) as [-> ->]. now split.
Qed.

(** The file name of a template of the registry has no digit. *)
Lemma template_path_shape (w : World) (item : string * string) :
  In item repositories ->
  exists z file,
    template_path w item = (z ++ String "/" file)%string
    /\ has_char "/" file = false
    /\ all_chars not_digit file = true.
Proof.
  intros I.
  assert (S : exists dir file,
             snd item = (dir ++ String "/" file)%string
             /\ is_absolute (snd item) = false
             /\ has_char "/" file = false
             /\ all_chars not_digit file = true).
  { cbn [In repositories] in I.
    destruct I as [<-|[<-|[<-|[<-|[]]]]]; exists "version_patches"%string.
    - exists "console.patch"%string. now repeat split.
    - exists "service.patch"%string. now repeat split.
    - exists "operator.patch"%string. now repeat split.
    - exists "konflux-release-data.patch"%string. now repeat split. }
  destruct S as (dir & file & E & R & F1 & F2).
  unfold template_path, path_join, resolve. rewrite R. cbv iota. rewrite E.
  clear R.
  match goal with |- context [if ?b then _ else _] => destruct b end.
  - exists (script_dir w ++ "/" ++ dir)%string, file.
    split; [|now split]. now rewrite !append_assoc.
  - exists (cwd w ++ "/" ++ script_dir w ++ "/" ++ dir)%string, file.
    split; [|now split]. now rewrite !append_assoc.
Qed.

(** The patch of a repository of the registry goes to the working
    directory. *)
Lemma patch_path_shape (w : World) (c n : string) (item : string * string) :
  In item repositories ->
  patch_path w c n item = (cwd w ++ String "/" (patch_name (fst item) c n))%string
  /\ has_char "/" (fst item) = false.
Proof.
  intros I. cbn [In repositories] in I.
  destruct I as [<-|[<-|[<-|[<-|[]]]]]; now split.
Qed.

Lemma patch_name_chars (ch : ascii) (r c n : string) :
  has_char ch r = false -> has_char ch c = false -> has_char ch n = false ->
  has_char ch "-bump-from-.patch" = false ->
  has_char ch (patch_name r c n) = false.
Proof.
  intros Hr Hc Hn Hl. rewrite patch_name_eq, !has_char_append, Hr, Hc, Hn.
  cbn [has_char orb] in Hl |- *.
  repeat (apply orb_false_iff in Hl as [? Hl]).
  repeat match goal with K : Ascii.eqb ch _ = false |- _ => rewrite K; clear K end.
  reflexivity.
Qed.

(** With semantic versions no patch of the registry is written over a
    template of the registry. *)
Lemma registry_disjoint (w : World) (c n : string)
    (vc vn : semantic_version.version) (i j : string * string) :
  semantic_version.Version c = Some vc ->
  semantic_version.Version n = Some vn ->
  In i repositories -> In j repositories ->
  patch_path w c n i <> template_path w j.
Proof.
  intros Hc Hn Hi Hj E.
  destruct (template_path_shape w j Hj) as (z & file & T & F1 & F2).
  destruct (patch_path_shape w c n i Hi) as [P Hr].
  rewrite P, T in E.
  assert (Hs : has_char "/" (patch_name (fst i) c n) = false).
  { apply patch_name_chars; [exact Hr | | | reflexivity].
    - now apply (SemVerFacts.Version_chars c vc).
    - now apply (SemVerFacts.Version_chars n vn). }
  destruct (last_sep_split _ _ _ _ _ Hs F1 E) as [_ N].
  pose proof (SemVerFacts.Version_version_like c vc Hc) as L.
  destruct c as [|d c']; [discriminate L|]. cbn [version_like] in L.
  assert (D : has_char d file = false).
  { apply SemVerFacts.all_chars_has_char with (f := not_digit); [|exact F2].
    unfold not_digit. now rewrite L. }
  rewrite <- N, patch_name_eq, !has_char_append in D.
  cbn [has_char] in D. rewrite Ascii.eqb_refl in D.
  cbn [orb] in D. rewrite !orb_true_r in D. discriminate.
Qed.

Lemma registry_path_inj (w : World) (c n : string) (i j : string * string) :
  In i repositories -> In j repositories ->
  patch_path w c n i = patch_path w c n j -> i = j.
Proof.
  intros Hi Hj E.
  rewrite (proj1 (patch_path_shape w c n i Hi)) in E.
  rewrite (proj1 (patch_path_shape w c n j Hj)) in E.
  apply append_inv_head in E. injection E as E.
  rewrite !patch_name_eq in E. apply append_inv_tail in E.
  cbn [In repositories] in Hi, Hj.
  destruct Hi as [<-|[<-|[<-|[<-|[]]]]]; destruct Hj as [<-|[<-|[<-|[<-|[]]]]];
    cbn [fst] in E; try reflexivity; discriminate E.
Qed.

Lemma registry_nodup : NoDup repositories.
Proof.
  unfold repositories.
  repeat (constructor; [cbn [In]; intros H;
                        repeat (destruct H as [H|H]; [discriminate H|]);
                        contradiction|]).
  constructor.
Qed.

(** The patch files of the registry are pairwise distinct. *)
Lemma registry_paths_nodup (w : World) (c n : string) (regs : list (string * string)) :
  (forall i, In i regs -> In i repositories) -> NoDup regs ->
  NoDup (map (patch_path w c n) regs).
Proof.
  intros Sub N. induction N as [|x l Nx N IH]; cbn [map]; constructor.
  - intros I. apply in_map_iff in I as (y & E & Iy).
    apply Nx.
    assert (y = x) as <-; [|exact Iy].
    apply (registry_path_inj w c n); [apply Sub; now right | apply Sub; now left
                                     | exact E].
  - apply IH. intros i Hi. apply Sub. now right.
Qed.

End RegistryFacts.

(* ================================================================== *)
(** * Templates in pieces *)
(* ================================================================== *)

Module SegmentFacts.
Import PyStr StrFacts.

(** Text without the first character of [old] is copied as it is. *)
Lemma replace_plain_prefix (b : ascii) (old' new text rest : string) :
  has_char b text = false ->
  replace (String b old') new (text ++ rest)
  = (text ++ replace (String b old') new rest)%string.
Proof.
  induction text as [|x text IH]; intros H; [reflexivity|].
  cbn [has_char] in H. apply orb_false_iff in H as [Hx H].
  change ((String x text ++ rest)%string) with (String x (text ++ rest)).
  rewrite replace_step. cbv zeta.
  change (startswith (String b old') (String x (text ++ rest)))
    with (Ascii.eqb b x && startswith old' (text ++ rest)).
  rewrite Hx. cbn [andb append]. now rewrite IH.
Qed.

(** Where [old] starts it is replaced, and the scan goes on behind it. *)
Lemma replace_at_start (b : ascii) (old' new rest : string) :
  replace (String b old') new (String b old' ++ rest)
  = (new ++ replace (String b old') new rest)%string.
Proof.
  destruct (String b old' ++ rest)%string as [|c t] eqn:Et; [discriminate|].
  rewrite replace_step. cbv zeta. rewrite <- Et.
  now rewrite startswith_refl_append, drop_append.
Qed.

(** The first replacement leaves the second placeholder alone. *)
Lemma replace_current_skips_new (c rest : string) :
  replace current_version_token c (new_version_token ++ rest)
  = (new_version_token ++ replace current_version_token c rest)%string.
Proof.
  unfold current_version_token, new_version_token.
  change ("<new-version>" ++ rest)%string with (String "<" ("new-version>" ++ rest)).
  rewrite replace_step. cbv zeta.
  change (startswith "<current-version>" (String "<" ("new-version>" ++ rest)))
    with false.
  cbv iota.
  now rewrite replace_plain_prefix by reflexivity.
Qed.

End SegmentFacts.

(* ================================================================== *)
(** * Stripping *)
(* ================================================================== *)

Module StripFacts.
Import PyStr StrFacts PyStrip.

Lemma reverse_onto_append (s acc : string) :
  reverse_onto s acc = (reverse s ++ acc)%string.
Proof.
  unfold reverse. revert acc. induction s as [|c s IH]; intros acc; [reflexivity|].
  cbn [reverse_onto]. rewrite IH, (IH (String c "")).
  now rewrite append_assoc.
Qed.

Lemma reverse_cons (c : ascii) (s : string) :
  reverse (String c s) = (reverse s ++ String c "")%string.
Proof. unfold reverse at 1. cbn [reverse_onto]. apply reverse_onto_append. Qed.

Lemma reverse_append (a b : string) :
  reverse (a ++ b) = (reverse b ++ reverse a)%string.
Proof.
  induction a as [|c a IH]; cbn [append].
  - now rewrite append_nil_r.
  - now rewrite !reverse_cons, IH, append_assoc.
Qed.

Lemma reverse_involutive (s : string) : reverse (reverse s) = s.
Proof.
  induction s as [|c s IH]; [reflexivity|].
  now rewrite reverse_cons, reverse_append, IH.
Qed.

Lemma all_chars_reverse (f : ascii -> bool) (s : string) :
  all_chars f (reverse s) = all_chars f s.
Proof.
  induction s as [|c s IH]; [reflexivity|].
  rewrite reverse_cons, NameFacts.all_chars_append, IH.
  cbn [all_chars]. now rewrite andb_true_r, andb_comm.
Qed.

(** A character of a version is a byte below 128 that is no white space
    and no part of a white space. *)
Lemma version_char_plain (x : ascii) :
  version_char x = true ->
  ascii_space x = false
  /\ PyBytes.byte_in 0 127 x = true
  /\ (forall b, space2 x b = false) /\ (forall b, space2 b x = false)
  /\ (forall a b, space3 x a b = false) /\ (forall a b, space3 a b x = false).
Proof.
  destruct x as [[] [] [] [] [] [] [] []]; intros H; try discriminate H;
    (split; [reflexivity|]); (split; [reflexivity|]);
    (split; [reflexivity|]);
    (split; [intros b; unfold space2; cbn; now rewrite ?andb_false_r|]);
    (split; [reflexivity|]);
    intros a b; unfold space3; cbn; now rewrite ?andb_false_r.
Qed.

Lemma ascii_space_low (x : ascii) :
  ascii_space x = true -> PyBytes.byte_in 0 127 x = true.
Proof.
  destruct x as [[] [] [] [] [] [] [] []]; intros H; try discriminate H;
    reflexivity.
Qed.

(** Bytes below 128 are well-formed UTF-8. *)
Lemma utf8_valid_low (s : string) :
  all_chars (PyBytes.byte_in 0 127) s = true -> PyBytes.utf8_valid s = true.
Proof.
  induction s as [|c s IH]; [reflexivity|].
  cbn [all_chars]. intros H. apply andb_true_iff in H as [Hc H].
  cbn [PyBytes.utf8_valid]. rewrite Hc. now apply IH.
Qed.

Lemma all_chars_impl (f g : ascii -> bool) (s : string) :
  (forall c, f c = true -> g c = true) ->
  all_chars f s = true -> all_chars g s = true.
Proof.
  intros I. induction s as [|c s IH]; [reflexivity|].
  cbn [all_chars]. intros H. apply andb_true_iff in H as [Hc H].
  now rewrite (I c Hc), IH.
Qed.

(** Leading white space below 128 is stripped. *)
Lemma lstrip_spaces (pre rest : string) :
  all_chars ascii_space pre = true -> lstrip (pre ++ rest) = lstrip rest.
Proof.
  induction pre as [|c pre IH]; [reflexivity|].
  cbn [all_chars]. intros H. apply andb_true_iff in H as [Hc H].
  cbn [append lstrip]. rewrite Hc. now apply IH.
Qed.

Lemma lstrip_reversed_spaces (pre rest : string) :
  all_chars ascii_space pre = true ->
  lstrip_reversed (pre ++ rest) = lstrip_reversed rest.
Proof.
  induction pre as [|c pre IH]; [reflexivity|].
  cbn [all_chars]. intros H. apply andb_true_iff in H as [Hc H].
  cbn [append lstrip_reversed]. rewrite Hc. now apply IH.
Qed.

(** A text that begins with a character of a version loses nothing on
    that side. *)
Lemma lstrip_plain (x : ascii) (t : string) :
  version_char x = true -> lstrip (String x t) = String x t.
Proof.
  intros H. destruct (version_char_plain x H) as (S1 & _ & S2 & _ & S3 & _).
  cbn [lstrip]. rewrite S1.
  destruct t as [|b1 t1]; [reflexivity|]. rewrite S2.
  destruct t1 as [|b2 t2]; [reflexivity|]. now rewrite S3.
Qed.

Lemma lstrip_reversed_plain (x : ascii) (t : string) :
  version_char x = true -> lstrip_reversed (String x t) = String x t.
Proof.
  intros H. destruct (version_char_plain x H) as (S1 & _ & _ & S2 & _ & S3).
  cbn [lstrip_reversed]. rewrite S1.
  destruct t as [|b1 t1]; [reflexivity|]. rewrite S2.
  destruct t1 as [|b2 t2]; [reflexivity|]. now rewrite S3.
Qed.

(** A non-empty text of version characters between white space below 128
    is what [strip] returns. *)
Lemma strip_between_spaces (pre v post : string) :
  v <> EmptyString ->
  all_chars version_char v = true ->
  all_chars ascii_space pre = true ->
  all_chars ascii_space post = true ->
  strip (pre ++ v ++ post) = v.
Proof.
  intros Nv Hv Hpre Hpost. unfold strip, rstrip.
  rewrite lstrip_spaces by exact Hpre.
  destruct v as [|x v']; [contradiction|].
  cbn [all_chars] in Hv. pose proof Hv as Hv0.
  apply andb_true_iff in Hv as [Hx Hv].
  change ((String x v' ++ post)%string) with (String x (v' ++ post)).
  rewrite lstrip_plain by exact Hx.
  change (String x (v' ++ post)) with ((String x v' ++ post)%string).
  rewrite reverse_append.
  rewrite lstrip_reversed_spaces by now rewrite all_chars_reverse.
  assert (R : lstrip_reversed (reverse (String x v')) = reverse (String x v')).
  { pose proof (all_chars_reverse version_char (String x v')) as A.
    cbn [all_chars] in A. rewrite Hx, Hv in A. cbn [andb] in A.
    destruct (reverse (String x v')) as [|y t] eqn:E; [reflexivity|].
    cbn [all_chars] in A. apply andb_true_iff in A as [Hy _].
    now apply lstrip_reversed_plain. }
  rewrite R. apply reverse_involutive.
Qed.

(** The characters of a version that the parser accepts. *)
Lemma all_chars_join (f : ascii -> bool) (sep : string) (ids : list string) :
  all_chars f sep = true ->
  Forall (fun i => all_chars f i = true) ids ->
  all_chars f (join sep ids) = true.
Proof.
  intros Hs F. induction F as [|x ids Hx F IH]; [reflexivity|].
  destruct ids as [|y ids]; [exact Hx|].
  change (join sep (x :: y :: ids)) with (x ++ sep ++ join sep (y :: ids))%string.
  now rewrite !NameFacts.all_chars_append, Hx, Hs, IH.
Qed.

Lemma version_char_of_ident (c : ascii) :
  semantic_version.is_ident_char c = true -> version_char c = true.
Proof. intros H. unfold version_char. now rewrite H. Qed.

Lemma version_char_of_digit (c : ascii) :
  semantic_version.is_digit c = true -> version_char c = true.
Proof.
  intros H. unfold version_char, semantic_version.is_ident_char. now rewrite H.
Qed.

Lemma all_chars_suffix (mark : ascii) (ids : list string) :
  version_char mark = true ->
  Forall (fun i => all_chars version_char i = true) ids ->
  all_chars version_char (semantic_version.suffix (String mark "") ids) = true.
Proof.
  intros Hm F. destruct ids as [|i ids]; [reflexivity|].
  change (semantic_version.suffix (String mark "") (i :: ids))
    with (String mark (join "." (i :: ids))).
  cbn [all_chars]. rewrite Hm. cbn [andb].
  now apply all_chars_join.
Qed.

Lemma Version_all_chars (s : string) (v : semantic_version.version) :
  semantic_version.Version s = Some v ->
  all_chars version_char s = true /\ s <> EmptyString.
Proof.
  intros H. split.
  2:{ pose proof (SemVerFacts.Version_version_like s v H) as L.
      destruct s; [discriminate L | discriminate]. }
  destruct (SemVerFacts.Version_sound s v H) as [(N1 & N2 & N3 & F1 & F2) ->].
  assert (Num : forall x, semantic_version.numeric_identifier x = true ->
                          all_chars version_char x = true).
  { intros x Hx. unfold semantic_version.numeric_identifier in Hx.
    apply andb_true_iff in Hx as [Hx _]. apply andb_true_iff in Hx as [_ Hx].
    exact (all_chars_impl _ _ x version_char_of_digit Hx). }
  unfold semantic_version.format. rewrite !NameFacts.all_chars_append.
  rewrite (Num _ N1), (Num _ N2), (Num _ N3).
  rewrite (all_chars_suffix "-"), (all_chars_suffix "+"); try reflexivity.
  - eapply SemVerFacts.Forall_weaken; [|exact F2]. intros x Hx.
    unfold semantic_version.build_identifier in Hx.
    apply andb_true_iff in Hx as [_ Hx].
    exact (all_chars_impl _ _ x version_char_of_ident Hx).
  - eapply SemVerFacts.Forall_weaken; [|exact F1]. intros x Hx.
    unfold semantic_version.prerelease_identifier in Hx.
    apply andb_true_iff in Hx as [Hx _]. apply andb_true_iff in Hx as [_ Hx].
    exact (all_chars_impl _ _ x version_char_of_ident Hx).
Qed.

End StripFacts.

(* ================================================================== *)
(** * What the phases never do *)
(* ================================================================== *)

Module PhaseFacts.

Lemma never_exits_ret {A : Type} (a : A) : never_exits (ret a).
Proof. intros h fs code. discriminate. Qed.

Lemma never_exits_raise {A : Type} (e : exn) : never_exits (@raise A e).
Proof. intros h fs code. discriminate. Qed.

Lemma never_exits_emit (e : event) : never_exits (emit e).
Proof. intros h fs code. discriminate. Qed.

Lemma never_exits_bind {A B : Type} (m : M A) (f : A -> M B) :
  never_exits m -> (forall a, never_exits (f a)) -> never_exits (bind m f).
Proof.
  intros Hm Hf h fs code.
  destruct (res (m h fs)) as [a|e|c] eqn:E.
  - rewrite (bind_ok _ _ _ _ _ E). cbn [res]. apply Hf.
  - rewrite (bind_raise _ _ _ _ _ E). discriminate.
  - now destruct (Hm h fs c).
Qed.

Lemma never_exits_for_each {A : Type} (xs : list A) (body : A -> M unit) :
  (forall x, never_exits (body x)) -> never_exits (for_each xs body).
Proof.
  intros H. induction xs as [|x xs IH]; cbn [for_each].
  - apply never_exits_ret.
  - apply never_exits_bind; [apply H | intros _; exact IH].
Qed.

Lemma never_exits_check_return_code (cp : CompletedProcess) (msg : string) :
  never_exits (check_return_code cp msg).
Proof.
  unfold check_return_code, decode_utf8, logger_error.
  destruct (Z.eqb (returncode cp) 0); [apply never_exits_ret|].
  apply never_exits_bind;
    [destruct (PyBytes.decode (stderr cp));
     [apply never_exits_ret | apply never_exits_raise] | intros ?].
  apply never_exits_bind; [apply never_exits_emit | intros ?].
  apply never_exits_bind; [apply never_exits_emit | intros ?].
  apply never_exits_raise.
Qed.

Lemma never_exits_git_command (w : World) (t : string) (args : list string) :
  never_exits (git_command w t args).
Proof.
  intros h fs code. rewrite git_command_run. cbv zeta.
  destruct (run_process w h _); discriminate.
Qed.

Ltac never_exits_step :=
  repeat first
    [ apply never_exits_git_command
    | apply never_exits_check_return_code
    | apply never_exits_ret
    | apply never_exits_emit
    | apply never_exits_for_each; intros ?
    | apply never_exits_bind; [|intros ?] ].

Lemma never_exits_pull_requests (w : World) (regs : list (string * string))
    (c n : string) :
  never_exits (prepare_pull_requests w regs c n).
Proof.
  unfold prepare_pull_requests, prepare_pull_request, commit_changes, logger_info.
  never_exits_step.
Qed.

Lemma never_exits_patches (w : World) (regs : list (string * string)) (c n : string) :
  never_exits (prepare_patches w regs c n).
Proof.
  unfold prepare_patches, logger_info.
  apply never_exits_bind; [apply never_exits_emit | intros _].
  apply never_exits_bind; [|intros _; apply never_exits_emit].
  change (for_each regs _) with (for_each regs (patch_turn w c n)).
  apply never_exits_for_each. intros item h fs code.
  rewrite PatchFacts.patch_turn_run. cbv zeta.
  destruct (fs _); [destruct (can_write w _)|]; discriminate.
Qed.

(** ** Files *)

Lemma keeps_files_ret {A : Type} (a : A) : keeps_files (ret a).
Proof. intros h fs. reflexivity. Qed.

Lemma keeps_files_raise {A : Type} (e : exn) : keeps_files (@raise A e).
Proof. intros h fs. reflexivity. Qed.

Lemma keeps_files_emit (e : event) : keeps_files (emit e).
Proof. intros h fs. reflexivity. Qed.

Lemma keeps_files_bind {A B : Type} (m : M A) (f : A -> M B) :
  keeps_files m -> (forall a, keeps_files (f a)) -> keeps_files (bind m f).
Proof.
  intros Hm Hf h fs.
  destruct (res (m h fs)) as [a|e|c] eqn:E.
  - rewrite (bind_ok _ _ _ _ _ E). cbn [files]. now rewrite Hf, Hm.
  - rewrite (bind_raise _ _ _ _ _ E). cbn [files]. apply Hm.
  - rewrite (bind_exit _ _ _ _ _ E). cbn [files]. apply Hm.
Qed.

Lemma keeps_files_for_each {A : Type} (xs : list A) (body : A -> M unit) :
  (forall x, keeps_files (body x)) -> keeps_files (for_each xs body).
Proof.
  intros H. induction xs as [|x xs IH]; cbn [for_each].
  - apply keeps_files_ret.
  - apply keeps_files_bind; [apply H | intros _; exact IH].
Qed.

Lemma keeps_files_check_return_code (cp : CompletedProcess) (msg : string) :
  keeps_files (check_return_code cp msg).
Proof.
  unfold check_return_code, decode_utf8, logger_error.
  destruct (Z.eqb (returncode cp) 0); [apply keeps_files_ret|].
  apply keeps_files_bind;
    [destruct (PyBytes.decode (stderr cp));
     [apply keeps_files_ret | apply keeps_files_raise] | intros ?].
  apply keeps_files_bind; [apply keeps_files_emit | intros ?].
  apply keeps_files_bind; [apply keeps_files_emit | intros ?].
  apply keeps_files_raise.
Qed.

Lemma keeps_files_git_command (w : World) (t : string) (args : list string) :
  keeps_files (git_command w t args).
Proof.
  intros h fs. rewrite git_command_run. cbv zeta.
  destruct (run_process w h _); reflexivity.
Qed.

Lemma keeps_files_pull_requests (w : World) (regs : list (string * string))
    (c n : string) :
  keeps_files (prepare_pull_requests w regs c n).
Proof.
  unfold prepare_pull_requests, prepare_pull_request, commit_changes, logger_info.
  repeat first
    [ apply keeps_files_git_command
    | apply keeps_files_check_return_code
    | apply keeps_files_ret
    | apply keeps_files_emit
    | apply keeps_files_for_each; intros ?
    | apply keeps_files_bind; [|intros ?] ].
Qed.

Lemma no_file_pull_requests (w : World) (regs : list (string * string))
    (c n : string) :
  emits no_file (prepare_pull_requests w regs c n).
Proof.
  unfold prepare_pull_requests. apply emits_for_each. intros r.
  unfold prepare_pull_request, commit_changes, logger_info.
  repeat first
    [ apply emits_git_command; reflexivity
    | apply emits_check_return_code; reflexivity
    | emits_step ].
Qed.

Lemma no_file_accesses (evs : list event) :
  forallb no_file evs = true -> reads_of evs = [] /\ writes_of evs = [].
Proof.
  induction evs as [|e evs IH]; [now split|].
  cbn [forallb]. intros H. apply andb_true_iff in H as [He H].
  destruct e; try discriminate He; cbn [reads_of writes_of]; now apply IH.
Qed.

(** The result of a computation that never exits gives status 0 or 1. *)
Lemma status_of_never_exits {A : Type} (r : result A) :
  (forall code, r <> SysExit code) ->
  exit_status r = (if is_ok r then 0 else 1)%Z.
Proof. intros N. destruct r as [a|e|c]; try reflexivity. now destruct (N c). Qed.

End PhaseFacts.

(* ================================================================== *)
(** * Further properties *)
(* ================================================================== *)

Import PlanFacts PatchFacts RegistryFacts SegmentFacts StripFacts PhaseFacts.

(** ** The command line *)

(** X1.  With a number of arguments other than two the run logs the usage
    line at error level and exits with status 1; it does nothing else, and
    does not look at the arguments it was given. *)
Theorem wrong_argument_count_exits
    (w : World) (argv : list string) (h : list event) (fs : FS) :
  List.length argv <> 3 ->
  let o := main w argv h fs in
  res o = SysExit 1%Z
  /\ exit_status (res o) = 1%Z
  /\ events o
     = [EvLog ERROR "Usage: python bump_up_version.py <current-version> <new-version>"]
  /\ files o = fs.
Proof. intros L. cbv zeta. rewrite main_usage by exact L. now repeat split. Qed.

Lemma wrong_argument_count_exits_witness :
  let o := main Sample.happy ["./bump_up_version.py"; "0.2.1"]%string
             [] Sample.templates in
  res o = SysExit 1%Z
  /\ exit_status (res o) = 1%Z
  /\ events o
     = [EvLog ERROR "Usage: python bump_up_version.py <current-version> <new-version>"]
  /\ files o = Sample.templates.
Proof.
  apply (wrong_argument_count_exits Sample.happy
           ["./bump_up_version.py"; "0.2.1"]%string [] Sample.templates).
  vm_compute. discriminate.
Defined.

(** X2.  When the current version is a semantic version and the new one is
    not, the run logs the current version, raises the [ValueError] of the
    new one, and has touched no file and run no process. *)
Theorem malformed_new_version_aborts
    (w : World) (a0 c n : string) (h : list event) (fs : FS) :
  semantic_version.Version c <> None ->
  semantic_version.Version n = None ->
  let o := main w [a0; c; n] h fs in
  res o = Raise (ValueError n)
  /\ events o = [EvLog INFO ("current version: " ++ c)]
  /\ files o = fs.
Proof.
  intros Hc Hn. cbv zeta.
  destruct (main_run w a0 c n h fs) as [h2 ->]. rewrite Hn.
  destruct (semantic_version.Version c); [now repeat split | contradiction].
Qed.

Lemma malformed_new_version_aborts_witness :
  let o := main Sample.happy ["./bump_up_version.py"; "0.2.1"; "0.2"]%string
             [] Sample.templates in
  res o = Raise (ValueError "0.2")
  /\ events o = [EvLog INFO "current version: 0.2.1"]
  /\ files o = Sample.templates.
Proof.
  apply (malformed_new_version_aborts Sample.happy "./bump_up_version.py"
           "0.2.1" "0.2" [] Sample.templates).
  - vm_compute. discriminate.
  - vm_compute. reflexivity.
Defined.

(** X3.  The exit status of a run is 0 or 1, whatever the arguments, the
    files and the processes do. *)
Theorem exit_status_zero_or_one
    (w : World) (argv : list string) (h : list event) (fs : FS) :
  exit_status (res (main w argv h fs)) = 0%Z
  \/ exit_status (res (main w argv h fs)) = 1%Z.
Proof.
  destruct (Nat.eq_dec (List.length argv) 3) as [L|L].
  2:{ right. now rewrite main_usage by exact L. }
  destruct argv as [|a0 [|c [|n [|x rest]]]]; try discriminate L.
  destruct (main_run w a0 c n h fs) as [h2 ->].
  destruct (semantic_version.Version c); [|now right].
  destruct (semantic_version.Version n); [|now right].
  cbv zeta. cbn [res].
  rewrite status_of_never_exits.
  - destruct (is_ok _); [now left | now right].
  - intros code. apply never_exits_bind;
      [apply never_exits_patches | intros _; apply never_exits_pull_requests].
Qed.

(** ** The run as a whole *)

(** X4.  When both versions are semantic versions, every template of the
    registry is there, every patch may be written and every process
    returns zero, the run ends normally: it has written the patch of every
    repository, in the order of the registry, and then has run
    [git add .] and [git commit] in every repository, in that order. *)
Theorem run_succeeds
    (w : World) (a0 c n : string) (h : list event) (fs : FS) :
  semantic_version.Version c <> None ->
  semantic_version.Version n <> None ->
  (forall item, In item repositories ->
     fs (template_path w item) <> None
     /\ can_write w (patch_path w c n item) = true) ->
  (forall h' argv, succeeded (run_process w h' argv) = true) ->
  let o := main w [a0; c; n] h fs in
  res o = Ok tt
  /\ exit_status (res o) = 0%Z
  /\ map fst (writes_of (events o)) = map (patch_path w c n) repositories
  /\ runs_of (events o) = commit_plan n repositories.
Proof.
  intros Hc Hn Hf Hp. cbv zeta.
  destruct (main_run w a0 c n h fs) as [h2 ->].
  destruct (semantic_version.Version c); [|contradiction].
  destruct (semantic_version.Version n); [|contradiction].
  cbv zeta. cbn [res events].
  pose proof (prepare_patches_succeeds w c n repositories h2 fs Hf) as R.
  rewrite (bind_ok _ _ _ _ tt R). cbn [res events].
  set (o1 := prepare_patches w repositories c n h2 fs) in *.
  set (o2 := prepare_pull_requests w repositories c n (h2 ++ events o1) (files o1)).
  assert (Q : is_ok (res o2) = true).
  { apply quiet_ok; [apply disciplined_prepare_pull_requests|].
    now apply quiet_prepare_pull_requests. }
  assert (P2 : runs_of (events o2) = commit_plan n repositories).
  { destruct (plan_prepare_pull_requests w repositories c n
                (h2 ++ events o1) (files o1)) as [[_ P]|[O _]]; [exact P|].
    fold o2 in O. congruence. }
  assert (W2 : writes_of (events o2) = []).
  { apply no_write_writes. apply pull_requests_write_nothing. }
  assert (R1 : runs_of (events o1) = []).
  { apply no_run_runs. apply patches_run_nothing. }
  destruct (prepare_patches_writes w c n repositories h2 fs) as (k & _ & W1 & K).
  cbv zeta in W1, K. fold o1 in W1, K.
  rewrite (K R), firstn_all2 in W1 by (rewrite length_map; lia).
  destruct (res o2) as [[]| |]; try discriminate Q.
  cbn [writes_of runs_of exit_status].
  rewrite writes_of_app, runs_of_app, W2, R1, P2, app_nil_r.
  now repeat split.
Qed.

Lemma run_succeeds_witness :
  let o := main Sample.happy Sample.argv_example [] Sample.templates in
  res o = Ok tt
  /\ exit_status (res o) = 0%Z
  /\ map fst (writes_of (events o))
     = map (patch_path Sample.happy "0.2.1" "0.2.2") repositories
  /\ runs_of (events o) = commit_plan "0.2.2" repositories.
Proof.
  apply (run_succeeds Sample.happy "./bump_up_version.py" "0.2.1" "0.2.2"
           [] Sample.templates).
  - vm_compute. discriminate.
  - vm_compute. discriminate.
  - intros item I. cbn [In repositories] in I.
    destruct I as [<-|[<-|[<-|[<-|[]]]]]; vm_compute; (split; [discriminate | reflexivity]).
  - intros h' argv. reflexivity.
Defined.

(** X5.  When the template of a repository of the registry is missing, a
    run with two semantic versions fails with status 1 and runs no
    process: no repository is touched, whichever template it is. *)
Theorem missing_template_stops_run
    (w : World) (a0 c n : string) (h : list event) (fs : FS)
    (item : string * string) :
  semantic_version.Version c <> None ->
  semantic_version.Version n <> None ->
  In item repositories ->
  fs (template_path w item) = None ->
  let o := main w [a0; c; n] h fs in
  exit_status (res o) = 1%Z /\ runs_of (events o) = [].
Proof.
  intros Hc Hn I F. cbv zeta.
  destruct (main_run w a0 c n h fs) as [h2 ->].
  destruct (semantic_version.Version c) as [vc|] eqn:Vc; [|contradiction].
  destruct (semantic_version.Version n) as [vn|] eqn:Vn; [|contradiction].
  cbv zeta. cbn [res events].
  assert (M : is_ok (res (prepare_patches w repositories c n h2 fs)) = false).
  { apply (prepare_patches_missing w c n repositories h2 fs item I F).
    intros i Hi. now apply (registry_disjoint w c n vc vn). }
  pose proof (never_exits_patches w repositories c n h2 fs) as NE.
  pose proof (patches_run_nothing w repositories c n h2 fs) as NR.
  apply no_run_runs in NR.
  destruct (res (prepare_patches w repositories c n h2 fs)) as [u|e|code] eqn:E;
    [discriminate M | | now destruct (NE code)].
  rewrite (bind_raise _ _ _ _ _ E). cbn [res events exit_status runs_of].
  now split.
Qed.

Lemma missing_template_stops_run_witness :
  let o := main Sample.happy Sample.argv_example [] Sample.scenario_files in
  exit_status (res o) = 1%Z /\ runs_of (events o) = [].
Proof.
  apply (missing_template_stops_run Sample.happy "./bump_up_version.py"
           "0.2.1" "0.2.2" [] Sample.scenario_files
           ("lightspeed-operator", "version_patches/operator.patch")%string).
  - vm_compute. discriminate.
  - vm_compute. discriminate.
  - cbn [In repositories]. right. right. left. reflexivity.
  - vm_compute. reflexivity.
Defined.

(** ** The patches *)

(** X6.  When no patch is written over a template, a patch phase that ends
    normally has read the template of every repository and written for
    every repository, in the order of the registry, the patch that holds
    the template as it was before the run, rendered with the two
    versions. *)
Theorem patches_hold_rendered_templates
    (w : World) (regs : list (string * string)) (c n : string)
    (h : list event) (fs : FS) :
  (forall i j, In i regs -> In j regs -> patch_path w c n i <> template_path w j) ->
  res (prepare_patches w regs c n h fs) = Ok tt ->
  let o := prepare_patches w regs c n h fs in
  reads_of (events o) = map (template_path w) regs
  /\ writes_of (events o)
     = map (fun item => (patch_path w c n item,
                         render (text_at fs (template_path w item)) c n)) regs.
Proof.
  intros D R. cbv zeta.
  destruct (prepare_patches_content w c n regs h fs D R) as (Hw & Hr & _ & _).
  now split.
Qed.

Lemma patches_hold_rendered_templates_witness :
  let o := prepare_patches Sample.happy Sample.scenario_registry "1.0.0" "1.0.1"
             [] Sample.scenario_files in
  reads_of (events o) = map (template_path Sample.happy) Sample.scenario_registry
  /\ writes_of (events o)
     = map (fun item =>
              (patch_path Sample.happy "1.0.0" "1.0.1" item,
               render (text_at Sample.scenario_files
                         (template_path Sample.happy item)) "1.0.0" "1.0.1"))
           Sample.scenario_registry.
Proof.
  apply (patches_hold_rendered_templates Sample.happy Sample.scenario_registry
           "1.0.0" "1.0.1" [] Sample.scenario_files).
  - intros i j Hi Hj. cbn [In Sample.scenario_registry] in Hi, Hj.
    destruct Hi as [<-|[]]. destruct Hj as [<-|[]]. vm_compute. discriminate.
  - vm_compute. reflexivity.
Defined.

(** X7.  After a run that ends normally the patch file of every repository
    of the registry holds the template of that repository, as it was before
    the run, rendered with the two versions of the command line, whatever
    the file held before. *)
Theorem successful_run_leaves_patches
    (w : World) (argv : list string) (h : list event) (fs : FS) :
  res (main w argv h fs) = Ok tt ->
  exists c n,
    nth_error argv 1 = Some c /\ nth_error argv 2 = Some n
    /\ forall item, In item repositories ->
         exists template,
           fs (template_path w item) = Some template
           /\ files (main w argv h fs) (patch_path w c n item)
              = Some (render template c n).
Proof.
  intros R.
  destruct (Nat.eq_dec (List.length argv) 3) as [L|L].
  2:{ rewrite main_usage in R by exact L. discriminate R. }
  destruct argv as [|a0 [|c [|n [|x rest]]]]; try discriminate L.
  exists c, n. split; [reflexivity|]. split; [reflexivity|].
  destruct (main_run w a0 c n h fs) as [h2 M]. rewrite M in R |- *. clear M.
  destruct (semantic_version.Version c) as [vc|] eqn:Vc; [|discriminate R].
  destruct (semantic_version.Version n) as [vn|] eqn:Vn; [|discriminate R].
  cbv zeta in R |- *. cbn [res files] in R |- *.
  destruct (res (prepare_patches w repositories c n h2 fs)) as [[]| |] eqn:E;
    [ | rewrite (bind_raise _ _ _ _ _ E) in R; discriminate R
      | rewrite (bind_exit _ _ _ _ _ E) in R; discriminate R ].
  rewrite (bind_ok _ _ _ _ tt E). cbn [files].
  rewrite keeps_files_pull_requests.
  assert (D : forall i j, In i repositories -> In j repositories ->
                patch_path w c n i <> template_path w j).
  { intros i j Hi Hj. now apply (registry_disjoint w c n vc vn). }
  destruct (prepare_patches_content w c n repositories h2 fs D E)
    as (Hw & _ & Hp & Hf).
  cbv zeta in Hw, Hp, Hf.
  intros item I. destruct (Hp item I) as [T _].
  destruct (fs (template_path w item)) as [t|] eqn:Ft; [|contradiction].
  exists t. split; [reflexivity|].
  rewrite Hf, Hw. apply after_writes_lookup.
  - rewrite map_map. cbn [fst].
    apply registry_paths_nodup; [trivial | apply registry_nodup].
  - apply in_map_iff. exists item. split; [|exact I].
    unfold text_at. now rewrite Ft.
Qed.

Lemma successful_run_leaves_patches_witness :
  exists c n,
    nth_error Sample.argv_example 1 = Some c
    /\ nth_error Sample.argv_example 2 = Some n
    /\ forall item, In item repositories ->
         exists template,
           Sample.templates (template_path Sample.happy item) = Some template
           /\ files (main Sample.happy Sample.argv_example [] Sample.templates)
                (patch_path Sample.happy c n item)
              = Some (render template c n).
Proof.
  apply (successful_run_leaves_patches Sample.happy Sample.argv_example []
           Sample.templates).
  vm_compute. reflexivity.
Defined.

(** ** The commands *)

(** X8.  The pull-request phase runs [git add .] and [git commit]
    repository by repository in the order of the registry, and checks each
    command: it ends normally exactly when every command of the plan has
    run and returned zero; otherwise the commands before one command of the
    plan have returned zero, that command has failed and is the last that
    ran, so that the repositories after it are not touched.  The same holds
    for one repository and for [commit_changes]. *)
Theorem pull_requests_follow_plan (w : World) :
  (forall r n, checked_plan [git_add r; git_commit r n] (commit_changes w r n))
  /\ (forall r c n,
        checked_plan [git_add r; git_commit r n] (prepare_pull_request w r c n))
  /\ (forall regs c n,
        checked_plan (commit_plan n regs) (prepare_pull_requests w regs c n)).
Proof.
  repeat apply conj.
  - intros r n. apply checked_plan_of;
      [apply disciplined_commit_changes | apply plan_commit_changes].
  - intros r c n. apply checked_plan_of;
      [apply disciplined_prepare_pull_request|].
    unfold prepare_pull_request. apply plan_commit_changes.
  - intros regs c n. apply checked_plan_of;
      [apply disciplined_prepare_pull_requests | apply plan_prepare_pull_requests].
Qed.

(** X9.  The steps that [prepare_pull_request] does not call run checked
    plans too: [sync_repository] checks out main, fetches origin and rebases
    on origin/main; [create_branch] checks out a new branch;
    [check_if_applicable] and [apply_patch] apply the patch found one
    directory above the repository, the first with [--check]; [push_pr]
    pushes the branch to origin.  Each ends normally exactly when all its
    commands have returned zero, and runs nothing after a command that has
    not. *)
Theorem steps_follow_plan (w : World) (r b p : string) :
  checked_plan
    [ ["git"; "-C"; r; "checkout"; "main"];
      ["git"; "-C"; r; "fetch"; "origin"];
      ["git"; "-C"; r; "rebase"; "origin/main"] ]%string
    (sync_repository w r)
  /\ checked_plan [ ["git"; "-C"; r; "checkout"; "-b"; b] ]%string
       (create_branch w r b)
  /\ checked_plan [ ["git"; "-C"; r; "apply"; "--check"; "../" ++ p] ]%string
       (check_if_applicable w r p)
  /\ checked_plan [ ["git"; "-C"; r; "apply"; "../" ++ p] ]%string
       (apply_patch w r p)
  /\ checked_plan [ ["git"; "-C"; r; "push"; "origin"; b] ]%string
       (push_pr w r b).
Proof.
  repeat apply conj; apply checked_plan_of.
  - apply disciplined_sync_repository.
  - unfold sync_repository, logger_info. plan.
  - apply disciplined_create_branch.
  - unfold create_branch, logger_info. plan.
  - apply disciplined_check_if_applicable.
  - unfold check_if_applicable, logger_info. plan.
  - apply disciplined_apply_patch.
  - unfold apply_patch, logger_info. plan.
  - apply disciplined_push_pr.
  - unfold push_pr, logger_info. plan.
Qed.

(** X10.  The two phases keep apart: the patch phase starts no process;
    the pull-request phase itself opens no file, neither for reading nor
    for writing: the files of the repositories are touched by the git
    processes only. *)
Theorem phases_keep_apart
    (w : World) (regs : list (string * string)) (c n : string)
    (h : list event) (fs : FS) :
  runs_of (events (prepare_patches w regs c n h fs)) = []
  /\ reads_of (events (prepare_pull_requests w regs c n h fs)) = []
  /\ writes_of (events (prepare_pull_requests w regs c n h fs)) = [].
Proof.
  split; [apply no_run_runs, patches_run_nothing|].
  exact (no_file_accesses _ (no_file_pull_requests w regs c n h fs)).
Qed.

(** X13.  When a git command fails and what it wrote on its error stream is
    not UTF-8, [prepare_pull_request] raises [UnicodeDecodeError] and logs
    nothing: neither the message of the step nor the error stream. *)
Theorem undecodable_stderr_logs_nothing
    (w : World) (r c n : string) (h : list event) (fs : FS)
    (cp : CompletedProcess) :
  run_process w h (git_add r) = Some cp ->
  returncode cp <> 0%Z ->
  PyBytes.decode (stderr cp) = None ->
  prepare_pull_request w r c n h fs
  = mk_out [EvRun (git_add r) (Some cp)] fs
      (Raise (UnicodeDecodeError (stderr cp))).
Proof.
  intros Hr Hc Hd. unfold prepare_pull_request. cbv zeta. unfold commit_changes.
  match goal with
  | |- bind (git_command w r ?a)
         (fun result => bind (check_return_code result ?m) (fun _ => ?k)) h fs = _ =>
      pose proof (checked_git_cases w r a m k h fs) as C; cbv zeta in C
  end.
  change ("git" :: "-C" :: r :: ["add"; "."])%string with (git_add r) in C.
  rewrite Hr in C. apply Z.eqb_neq in Hc. rewrite Hc in C. rewrite C.
  unfold error_log, error_of. now rewrite Hd.
Qed.

Lemma undecodable_stderr_logs_nothing_witness :
  prepare_pull_request MoreSamples.garbled "lightspeed-service" "0.2.1" "0.2.2"
    [] Sample.templates
  = mk_out [EvRun (git_add "lightspeed-service") (Some MoreSamples.garbled_result)]
      Sample.templates
      (Raise (UnicodeDecodeError (stderr MoreSamples.garbled_result))).
Proof.
  apply (undecodable_stderr_logs_nothing MoreSamples.garbled "lightspeed-service"
           "0.2.1" "0.2.2" [] Sample.templates MoreSamples.garbled_result).
  - reflexivity.
  - vm_compute. discriminate.
  - vm_compute. reflexivity.
Defined.

(** ** Rendering *)

(** X11.  For a template made of text without ["<"] and of placeholders,
    and a current version without ["<"], rendering puts the current version
    in the place of every [<current-version>] and the new version in the
    place of every [<new-version>], and copies the text. *)
Theorem render_by_segments (segments : list segment) (c n : string) :
  forallb plain_segment segments = true ->
  PyStr.has_char "<" c = false ->
  render (template_of segments) c n = instance_of c n segments.
Proof.
  intros Hs Hc. unfold render.
  induction segments as [|s segments IH]; [reflexivity|].
  cbn [forallb] in Hs. apply andb_true_iff in Hs as [H1 Hs].
  specialize (IH Hs).
  destruct s as [text| |]; cbn [template_of instance_of plain_segment] in *.
  - apply negb_true_iff in H1. unfold current_version_token, new_version_token in *.
    rewrite replace_plain_prefix by exact H1.
    rewrite replace_plain_prefix by exact H1.
    now rewrite IH.
  - rewrite <- IH. unfold current_version_token, new_version_token.
    rewrite replace_at_start.
    now rewrite replace_plain_prefix by exact Hc.
  - rewrite <- IH. rewrite replace_current_skips_new.
    unfold current_version_token, new_version_token.
    now rewrite replace_at_start.
Qed.

Lemma render_by_segments_witness :
  render (template_of [Text "-version = "; CurrentVersion;
                       Text " +version = "; NewVersion]) "0.2.1" "0.2.2"
  = instance_of "0.2.1" "0.2.2"
      [Text "-version = "; CurrentVersion; Text " +version = "; NewVersion].
Proof.
  apply (render_by_segments
           [Text "-version = "; CurrentVersion; Text " +version = "; NewVersion]
           "0.2.1" "0.2.2"); reflexivity.
Defined.

(** X12.  A template in which neither placeholder occurs is rendered as it
    is, whatever the versions are. *)
Theorem render_without_placeholder (template c n : string) :
  PyStr.contains current_version_token template = false ->
  PyStr.contains new_version_token template = false ->
  render template c n = template.
Proof.
  intros H1 H2. unfold render, current_version_token, new_version_token in *.
  rewrite (replace_absent _ _ c _ H1). exact (replace_absent _ _ n _ H2).
Qed.

Lemma render_without_placeholder_witness :
  render "VERSION ?= <version>" "0.2.1" "<new-version>" = "VERSION ?= <version>"%string.
Proof.
  apply (render_without_placeholder "VERSION ?= <version>" "0.2.1" "<new-version>");
    reflexivity.
Defined.

(** ** The version of the package manager *)

(** X14.  When [pdm show --version] returns zero and prints a semantic
    version between white space below 128 (as a final line feed),
    [read_current_version] returns that version, which
    [check_version_format] accepts. *)
Theorem read_current_version_of_pdm_output
    (w : World) (h : list event) (fs : FS) (cp : CompletedProcess)
    (pre v post : string) :
  run_process w h pdm_show_version = Some cp ->
  returncode cp = 0%Z ->
  stdout cp = (pre ++ v ++ post)%string ->
  PyStr.all_chars PyStrip.ascii_space pre = true ->
  PyStr.all_chars PyStrip.ascii_space post = true ->
  semantic_version.Version v <> None ->
  read_current_version w h = ([EvRun pdm_show_version (Some cp)], inr v)
  /\ res (check_version_format v h fs) = Ok tt.
Proof.
  intros Hr Hc Ho Hpre Hpost Hv.
  destruct (semantic_version.Version v) as [ver|] eqn:V; [|contradiction].
  destruct (Version_all_chars v ver V) as [Av Nv].
  split.
  2:{ unfold check_version_format. now rewrite V. }
  unfold read_current_version. rewrite Hr, Hc, Ho. cbn [Z.eqb].
  assert (U : PyBytes.decode (pre ++ v ++ post)%string
              = Some (pre ++ v ++ post)%string).
  { unfold PyBytes.decode. rewrite utf8_valid_low; [reflexivity|].
    rewrite !NameFacts.all_chars_append.
    rewrite (all_chars_impl _ _ pre ascii_space_low Hpre).
    rewrite (all_chars_impl _ _ post ascii_space_low Hpost).
    rewrite (all_chars_impl version_char _ v
               (fun x Hx => proj1 (proj2 (version_char_plain x Hx))) Av).
    reflexivity. }
  rewrite U. now rewrite strip_between_spaces.
Qed.

Lemma read_current_version_of_pdm_output_witness :
  read_current_version MoreSamples.pdm_works []
  = ([EvRun pdm_show_version (Some (mk_completed 0 MoreSamples.pdm_output ""))],
     inr "0.2.1"%string)
  /\ res (check_version_format "0.2.1" [] Sample.templates) = Ok tt.
Proof.
  apply (read_current_version_of_pdm_output MoreSamples.pdm_works []
           Sample.templates (mk_completed 0 MoreSamples.pdm_output "")
           ""%string "0.2.1"%string (String (ascii_of_nat 10) "")).
  - reflexivity.
  - reflexivity.
  - reflexivity.
  - reflexivity.
  - reflexivity.
  - vm_compute. discriminate.
Defined.

(** ** What a run never does *)

Lemma in_firstn_in {A : Type} (x : A) (k : nat) (l : list A) :
  In x (firstn k l) -> In x l.
Proof.
  revert l. induction k as [|k IH]; intros l H; [contradiction|].
  destruct l as [|y l]; [contradiction|].
  cbn [firstn In] in H |- *. destruct H as [H|H]; [now left | right; now apply IH].
Qed.

(** The files after the loop are the files before it with the writes of
    the trace, whether the loop ends normally or not. *)
Lemma patch_loop_files (w : World) (c n : string) (regs : list (string * string)) :
  forall h fs p,
    files (for_each regs (patch_turn w c n) h fs) p
    = after_writes fs (writes_of (events (for_each regs (patch_turn w c n) h fs))) p.
Proof.
  induction regs as [|item regs IH]; intros h fs p; [reflexivity|].
  cbn [for_each].
  pose proof (patch_turn_run w c n item h fs) as T. cbv zeta in T.
  destruct (fs (template_path w item)) as [t|].
  2:{ rewrite (bind_raise _ _ _ _ _ (f_equal res T)). now rewrite T. }
  destruct (can_write w (patch_path w c n item)).
  2:{ rewrite (bind_raise _ _ _ _ _ (f_equal res T)). now rewrite T. }
  rewrite (bind_ok _ _ _ _ tt (f_equal res T)). rewrite T.
  cbn [events files app writes_of after_writes]. apply IH.
Qed.

Lemma nodup_firstn {A : Type} (k : nat) (l : list A) :
  NoDup l -> NoDup (firstn k l).
Proof.
  intros N. revert k. induction N as [|x l Nx N IH]; intros [|k];
    cbn [firstn]; try constructor.
  - intros I. apply Nx. now apply in_firstn_in in I.
  - apply IH.
Qed.

(** X15.  The patch phase has no clean-up: whether it ends normally or
    fails part-way, the patches it has written are those of the first
    repositories of its registry, every file it has written holds at the
    end what was written to it, and every other file, the patch files of
    the repositories not reached among them, is as it was. *)
Theorem patch_phase_changes_patches_only
    (w : World) (regs : list (string * string)) (c n : string)
    (h : list event) (fs : FS) :
  NoDup (map (patch_path w c n) regs) ->
  let o := prepare_patches w regs c n h fs in
  exists k, k <= List.length regs
    /\ map fst (writes_of (events o)) = firstn k (map (patch_path w c n) regs)
    /\ (forall p content,
          In (p, content) (writes_of (events o)) -> files o p = Some content)
    /\ (forall p, ~ In p (map fst (writes_of (events o))) -> files o p = fs p)
    /\ (forall p, ~ In p (map (patch_path w c n) regs) -> files o p = fs p).
Proof.
  intros N. cbv zeta.
  destruct (prepare_patches_writes w c n regs h fs) as (k & Hk & W & _).
  cbv zeta in W.
  assert (F : forall p,
            files (prepare_patches w regs c n h fs) p
            = after_writes fs
                (writes_of (events (prepare_patches w regs c n h fs))) p).
  { intros p. unfold prepare_patches.
    change (for_each regs _) with (for_each regs (patch_turn w c n)).
    unfold logger_info. rewrite bind_emit. cbn [events files writes_of].
    set (h1 := h ++ [EvLog INFO "started patches generation"]).
    pose proof (patch_loop_files w c n regs h1 fs p) as L.
    destruct (res (for_each regs (patch_turn w c n) h1 fs)) as [[]| |] eqn:E;
      [ rewrite (bind_ok _ _ _ _ tt E)
      | rewrite (bind_raise _ _ _ _ _ E)
      | rewrite (bind_exit _ _ _ _ _ E) ];
      cbn [events files emit]; rewrite ?writes_of_app;
      cbn [writes_of]; rewrite ?app_nil_r; exact L. }
  exists k. split; [exact Hk|]. split; [exact W|]. repeat apply conj.
  - intros p content I. rewrite F. apply after_writes_lookup; [|exact I].
    rewrite W. now apply nodup_firstn.
  - intros p I. rewrite F. now apply after_writes_other.
  - intros p I. rewrite F. apply after_writes_other.
    rewrite W. intros J. apply I. now apply in_firstn_in in J.
Qed.

(** The template of the third repository is missing: the phase fails, and
    the two patches written before stay. *)
Lemma patch_phase_changes_patches_only_witness :
  let o := prepare_patches Sample.happy repositories "0.2.1" "0.2.2" []
             MoreSamples.two_templates in
  is_ok (res o) = false
  /\ files o "/work/lightspeed-service-bump-from-0.2.1-to-0.2.2.patch"
     = Some "v0.2.1->0.2.2"%string
  /\ exists k, k <= List.length repositories
       /\ map fst (writes_of (events o))
          = firstn k (map (patch_path Sample.happy "0.2.1" "0.2.2") repositories)
       /\ (forall p content,
             In (p, content) (writes_of (events o)) -> files o p = Some content)
       /\ (forall p, ~ In p (map fst (writes_of (events o))) ->
                     files o p = MoreSamples.two_templates p)
       /\ (forall p,
             ~ In p (map (patch_path Sample.happy "0.2.1" "0.2.2") repositories) ->
             files o p = MoreSamples.two_templates p).
Proof.
  cbv zeta. split; [reflexivity|]. split; [reflexivity|].
  apply (patch_phase_changes_patches_only Sample.happy repositories
           "0.2.1" "0.2.2" [] MoreSamples.two_templates).
  vm_compute.
  repeat (constructor;
          [intros H; repeat (destruct H as [H|H]; [discriminate H|]); exact H|]).
  constructor.
Defined.

(** X16.  A run that reads a file, writes a file or runs a process was
    given exactly two arguments, both of them semantic versions: nothing
    is touched before both versions have been checked. *)
Theorem effects_need_valid_versions
    (w : World) (argv : list string) (h : list event) (fs : FS) :
  reads_of (events (main w argv h fs)) <> []
  \/ writes_of (events (main w argv h fs)) <> []
  \/ runs_of (events (main w argv h fs)) <> [] ->
  exists a0 c n,
    argv = [a0; c; n]
    /\ semantic_version.Version c <> None
    /\ semantic_version.Version n <> None.
Proof.
  intros E.
  destruct (Nat.eq_dec (List.length argv) 3) as [L|L].
  2:{ rewrite main_usage in E by exact L. cbn in E.
      destruct E as [E|[E|E]]; now destruct E. }
  destruct argv as [|a0 [|c [|n [|x rest]]]]; try discriminate L.
  exists a0, c, n. split; [reflexivity|].
  destruct (main_run w a0 c n h fs) as [h2 M]. rewrite M in E. clear M.
  destruct (semantic_version.Version c).
  2:{ cbn in E. destruct E as [E|[E|E]]; now destruct E. }
  destruct (semantic_version.Version n).
  2:{ cbn in E. destruct E as [E|[E|E]]; now destruct E. }
  split; discriminate.
Qed.

Lemma effects_need_valid_versions_witness :
  exists a0 c n,
    Sample.argv_example = [a0; c; n]
    /\ semantic_version.Version c <> None
    /\ semantic_version.Version n <> None.
Proof.
  apply (effects_need_valid_versions Sample.happy Sample.argv_example []
           Sample.templates).
  left. vm_compute. discriminate.
Defined.

(** X17.  Every process that a run starts is [git add .] or [git commit]
    with the message of the new version, in a repository of the registry:
    a run never fetches, never creates a branch, never applies a patch and
    never pushes. *)
Theorem run_only_adds_and_commits
    (w : World) (argv : list string) (h : list event) (fs : FS)
    (a : list string) :
  In a (runs_of (events (main w argv h fs))) ->
  exists item n,
    In item repositories /\ nth_error argv 2 = Some n
    /\ (a = git_add (fst item) \/ a = git_commit (fst item) n).
Proof.
  intros I.
  destruct (Nat.eq_dec (List.length argv) 3) as [L|L].
  2:{ rewrite main_usage in I by exact L. contradiction. }
  destruct argv as [|a0 [|c [|n [|x rest]]]]; try discriminate L.
  destruct (main_run w a0 c n h fs) as [h2 M]. rewrite M in I. clear M.
  destruct (semantic_version.Version c); [|contradiction].
  destruct (semantic_version.Version n); [|contradiction].
  cbv zeta in I. cbn [events runs_of] in I.
  pose proof (patches_run_nothing w repositories c n h2 fs) as NR.
  apply no_run_runs in NR.
  assert (P : In a (commit_plan n repositories)).
  { destruct (res (prepare_patches w repositories c n h2 fs)) as [[]| |] eqn:E;
      [ rewrite (bind_ok _ _ _ _ tt E) in I
      | rewrite (bind_raise _ _ _ _ _ E) in I
      | rewrite (bind_exit _ _ _ _ _ E) in I ];
      cbn [events] in I; rewrite ?runs_of_app, NR in I;
      try contradiction.
    cbn [app] in I.
    destruct (plan_prepare_pull_requests w repositories c n
                (h2 ++ events (prepare_patches w repositories c n h2 fs))
                (files (prepare_patches w repositories c n h2 fs)))
      as [[_ R]|[_ (k & _ & R)]]; rewrite R in I; [exact I|].
    now apply in_firstn_in in I. }
  unfold commit_plan in P. apply in_concat in P as (l & Hl & Ha).
  apply in_map_iff in Hl as (item & <- & Hi).
  exists item, n. split; [exact Hi|]. split; [reflexivity|].
  cbn [In] in Ha. destruct Ha as [<-|[<-|[]]]; [now left | now right].
Qed.

Lemma run_only_adds_and_commits_witness :
  exists item n,
    In item repositories /\ nth_error Sample.argv_example 2 = Some n
    /\ (git_commit "lightspeed-operator" "0.2.2" = git_add (fst item)
        \/ git_commit "lightspeed-operator" "0.2.2" = git_commit (fst item) n).
Proof.
  apply (run_only_adds_and_commits Sample.happy Sample.argv_example []
           Sample.templates (git_commit "lightspeed-operator" "0.2.2")).
  vm_compute. do 5 right. left. reflexivity.
Defined.
